(** * Post-quantum signature façade with deterministic mock fallback

    A shallow embedding of [quantum_resistant_p2p/crypto/signatures.py]:
    the two concrete signature classes [DilithiumSignature] and
    [SPHINCSSignature], the module-level flag [LIBOQS_AVAILABLE] they share,
    their class-level [_mock_keypairs] dictionaries, and the deterministic
    mock engine built on [hashlib] and [hmac].

    Conventions.
    - Python [bytes] are [list byte]; Python [str] values are Rocq [string]s
      holding the UTF-8 encoding of the text, so that [str.encode()] is the
      passage from [string] to [list byte].
    - Python [int] is [Z].
    - The module global and the two class dictionaries live in a [State]
      record that every operation threads explicitly.
    - The native backend [oqs] is an arbitrary [Backend]: a record of
      operations over an abstract world, each of which may raise. *)

From Stdlib Require Import ZArith List String Ascii Strings.Byte DecimalString Lia.
From Stdlib Require Import DecimalZ DecimalPos.
From stdpp Require Import base option countable strings gmap fin_maps.
Import ListNotations.

Local Open Scope Z_scope.

Abbreviation bytes := (list byte).

(** ** Bytes, words and text *)

Global Instance byte_eq_dec : EqDecision byte.
Proof.
  intros a b. destruct (decide (Byte.to_N a = Byte.to_N b)) as [E | E].
  - left. apply (f_equal Byte.of_N) in E.
    rewrite !Byte.of_to_N in E. congruence.
  - right. congruence.
Defined.

Global Instance byte_countable : Countable byte :=
  inj_countable Byte.to_N Byte.of_N Byte.of_to_N.

Definition byte_to_Z (b : byte) : Z := Z.of_N (Byte.to_N b).

Definition byte_of_Z (z : Z) : byte :=
  match Byte.of_N (Z.to_N (z mod 256)) with
  | Some b => b
  | None => x00
  end.

(** Big-endian serialisation of the low [n] bytes of [z]. *)
Fixpoint be_bytes (n : nat) (z : Z) : bytes :=
  match n with
  | O => []
  | S n' => byte_of_Z (Z.shiftr z (8 * Z.of_nat n')) :: be_bytes n' z
  end.

Definition be_word (bs : bytes) : Z :=
  fold_left (fun acc b => acc * 256 + byte_to_Z b) bs 0.

(** [chunks size n l] cuts the first [n * size] elements of [l] into [n]
    consecutive pieces. *)
Fixpoint chunks {A} (size n : nat) (l : list A) : list (list A) :=
  match n with
  | O => []
  | S n' => firstn size l :: chunks size n' (skipn size l)
  end.

Definition xor_bytes (pad : Z) (bs : bytes) : bytes :=
  map (fun b => byte_of_Z (Z.lxor (byte_to_Z b) pad)) bs.

Definition hex_digit (n : Z) : ascii :=
  ascii_of_nat (Z.to_nat (if n <? 10 then 48 + n else 87 + n)).

(** [bytes.hex()]: two lowercase hexadecimal digits per byte. *)
Fixpoint hex (bs : bytes) : string :=
  match bs with
  | [] => EmptyString
  | b :: bs' =>
      String (hex_digit (Z.shiftr (byte_to_Z b) 4))
        (String (hex_digit (Z.land (byte_to_Z b) 15)) (hex bs'))
  end.

(** Flip bit [i] of a byte sequence, bit 0 being the lowest bit of the first
    byte; out of range the sequence is returned as it is. *)
Definition flip_bit (i : nat) (bs : bytes) : bytes :=
  match bs !! (i / 8)%nat with
  | Some b =>
      <[(i / 8)%nat :=
          byte_of_Z (Z.lxor (byte_to_Z b) (2 ^ Z.of_nat (i mod 8)))]> bs
  | None => bs
  end.

(** [str(n)] for a Python integer. *)
Definition str_int (n : Z) : string := NilZero.string_of_int (Z.to_int n).

(** [s.encode()]. *)
Definition encode (s : string) : bytes := list_byte_of_string s.

(** ** The SHA-2 family (FIPS 180-4), as [hashlib] provides it *)

Module SHA2.

Record params := {
  word_bytes : nat;
  round_constants : list Z;
  initial_hash : list Z;
  Sigma0_rot : Z * Z * Z;
  Sigma1_rot : Z * Z * Z;
  sigma0_rot : Z * Z * Z;
  sigma1_rot : Z * Z * Z;
  digest_size : nat
}.

Section Engine.
Variable p : params.

Definition w : Z := 8 * Z.of_nat (word_bytes p).
Definition block_bytes : nat := 16 * word_bytes p.
Definition length_bytes : nat := 2 * word_bytes p.

Definition wrap (x : Z) : Z := Z.land x (Z.ones w).
Definition add (x y : Z) : Z := wrap (x + y).
Definition rotr (n x : Z) : Z :=
  Z.lor (Z.shiftr x n) (wrap (Z.shiftl x (w - n))).
Definition shr (n x : Z) : Z := Z.shiftr x n.
Definition Ch (x y z : Z) : Z :=
  Z.lxor (Z.land x y) (Z.land (Z.lxor x (Z.ones w)) z).
Definition Maj (x y z : Z) : Z :=
  Z.lxor (Z.lxor (Z.land x y) (Z.land x z)) (Z.land y z).
Definition Sigma (r : Z * Z * Z) (x : Z) : Z :=
  let '(a, b, c) := r in Z.lxor (Z.lxor (rotr a x) (rotr b x)) (rotr c x).
Definition sigma (r : Z * Z * Z) (x : Z) : Z :=
  let '(a, b, c) := r in Z.lxor (Z.lxor (rotr a x) (rotr b x)) (shr c x).

(** Padding: a single 1 bit, zeros, then the bit length. *)
Definition pad (msg : bytes) : bytes :=
  let len := length msg in
  let used := ((len + 1 + length_bytes) mod block_bytes)%nat in
  let zeros := ((block_bytes - used) mod block_bytes)%nat in
  msg ++ x80 :: repeat x00 zeros
      ++ be_bytes length_bytes (8 * Z.of_nat len).

Definition blocks (msg : bytes) : list (list Z) :=
  let padded := pad msg in
  map (fun blk => map be_word (chunks (word_bytes p) 16 blk))
      (chunks block_bytes (length padded / block_bytes) padded).

(** Message schedule, kept newest word first while it is extended. *)
Fixpoint extend (n : nat) (rev_w : list Z) : list Z :=
  match n with
  | O => rev_w
  | S n' =>
      let wt :=
        add (add (sigma (sigma1_rot p) (nth 1 rev_w 0)) (nth 6 rev_w 0))
            (add (sigma (sigma0_rot p) (nth 14 rev_w 0)) (nth 15 rev_w 0)) in
      extend n' (wt :: rev_w)
  end.

Definition schedule (block : list Z) : list Z :=
  rev (extend (length (round_constants p) - 16) (rev block)).

Record vars := Vars { va : Z; vb : Z; vc : Z; vd : Z;
                      ve : Z; vf : Z; vg : Z; vh : Z }.

Definition round (v : vars) (kw : Z * Z) : vars :=
  let t1 := add (add (add (vh v) (Sigma (Sigma1_rot p) (ve v)))
                     (add (Ch (ve v) (vf v) (vg v)) (fst kw))) (snd kw) in
  let t2 := add (Sigma (Sigma0_rot p) (va v)) (Maj (va v) (vb v) (vc v)) in
  Vars (add t1 t2) (va v) (vb v) (vc v) (add (vd v) t1) (ve v) (vf v) (vg v).

Definition compress (h : vars) (block : list Z) : vars :=
  let v := fold_left round (combine (round_constants p) (schedule block)) h in
  Vars (add (va h) (va v)) (add (vb h) (vb v)) (add (vc h) (vc v))
       (add (vd h) (vd v)) (add (ve h) (ve v)) (add (vf h) (vf v))
       (add (vg h) (vg v)) (add (vh h) (vh v)).

Definition initial : vars :=
  let i n := nth n (initial_hash p) 0 in
  Vars (i 0%nat) (i 1%nat) (i 2%nat) (i 3%nat)
       (i 4%nat) (i 5%nat) (i 6%nat) (i 7%nat).

Definition serialise (v : vars) : bytes :=
  flat_map (be_bytes (word_bytes p))
    [va v; vb v; vc v; vd v; ve v; vf v; vg v; vh v].

Definition hash (msg : bytes) : bytes :=
  firstn (digest_size p) (serialise (fold_left compress (blocks msg) initial)).
End Engine.

(** The constants are defined the way the standard derives them: the first
    bits of the fractional parts of square and cube roots of primes. *)
Definition is_prime (k : Z) : bool :=
  forallb (λ d, negb (k mod d =? 0)) (map Z.of_nat (seq 2 (Z.to_nat k - 2))).

Definition primes : list Z :=
  filter (λ k, is_prime k = true) (map Z.of_nat (seq 2 410)).

(** Largest [y] below [2 ^ bits] with [y ^ r ≤ x], one bit at a time. *)
Definition iroot (r : Z) (bits : nat) (x : Z) : Z :=
  fold_left (λ y i, let y' := y + 2 ^ Z.of_nat i in
                    if y' ^ r <=? x then y' else y)
            (rev (seq 0 bits)) 0.

Definition root_fraction (r : Z) (bits : nat) (prime : Z) : Z :=
  iroot r (bits + 9) (prime * 2 ^ (r * Z.of_nat bits)) mod 2 ^ Z.of_nat bits.

Definition sha256_params : params := Eval vm_compute in {|
  word_bytes := 4;
  round_constants := map (root_fraction 3 32) (firstn 64 primes);
  initial_hash := map (root_fraction 2 32) (firstn 8 primes);
  Sigma0_rot := (2, 13, 22);
  Sigma1_rot := (6, 11, 25);
  sigma0_rot := (7, 18, 3);
  sigma1_rot := (17, 19, 10);
  digest_size := 32
|}.

Definition sha384_params : params := Eval vm_compute in {|
  word_bytes := 8;
  round_constants := map (root_fraction 3 64) (firstn 80 primes);
  initial_hash := map (root_fraction 2 64) (firstn 8 (skipn 8 primes));
  Sigma0_rot := (28, 34, 39);
  Sigma1_rot := (14, 18, 41);
  sigma0_rot := (1, 8, 7);
  sigma1_rot := (19, 61, 6);
  digest_size := 48
|}.

End SHA2.

(** ** [hashlib] and [hmac] *)

Module hashlib.

Definition sha256 (data : bytes) : bytes := SHA2.hash SHA2.sha256_params data.

(** A [hashlib.sha384()] object: the bytes fed to it so far. *)
Record sha384_object := { fed : bytes }.

Definition sha384 : sha384_object := {| fed := [] |}.
Definition update (h : sha384_object) (data : bytes) : sha384_object :=
  {| fed := fed h ++ data |}.
Definition digest (h : sha384_object) : bytes :=
  SHA2.hash SHA2.sha384_params (fed h).

End hashlib.

Module hmac.

(** [hmac.new(key, msg, hashlib.sha256).digest()] (RFC 2104). *)
Definition new_sha256_digest (key msg : bytes) : bytes :=
  let block := SHA2.block_bytes SHA2.sha256_params in
  let key' := if (block <? length key)%nat then hashlib.sha256 key else key in
  let key0 := key' ++ repeat x00 (block - length key') in
  hashlib.sha256
    (xor_bytes 0x5c key0 ++ hashlib.sha256 (xor_bytes 0x36 key0 ++ msg)).

(** [hmac.compare_digest(a, b)] on two [bytes] values: equality, computed
    in time independent of the contents. *)
Definition compare_digest (a b : bytes) : bool :=
  bool_decide (a = b).

End hmac.

(** ** Exceptions and the native backend *)

Inductive Exception :=
| ValueError (msg : string)
| BackendError (msg : string).

(** How a call that may raise completes. *)
Inductive completion (A : Type) :=
| Return (a : A)
| Raise (e : Exception).
Arguments Return {A} a.
Arguments Raise {A} e.

(** The [oqs] package: whatever the native library does, over a world of
    its own (loaded mechanisms, entropy, the key a [Signature] object holds).
    [Handle] is an [oqs.Signature] object. *)
Class Backend := {
  World : Type;
  Handle : Type;
  get_enabled_sig_mechanisms : World → completion (list string) * World;
  Signature : option string → option bytes → World → completion Handle * World;
  handle_generate_keypair : Handle → World → completion bytes * World;
  handle_export_secret_key : Handle → World → completion bytes * World;
  handle_sign : Handle → bytes → World → completion bytes * World;
  handle_verify : Handle → bytes → bytes → bytes → World → completion bool * World
}.

(** What [get_node_id] reads: the environment variable and the calling
    thread's identifier. *)
Record Environ := {
  NODE_ID : option string;
  get_ident : Z
}.

Definition get_node_id (env : Environ) : string :=
  match NODE_ID env with
  | Some v => v
  | None => str_int (get_ident env)
  end.

(** Truth value of a [bytes] object: non-empty. *)
Definition truthy (b : bytes) : bool :=
  match b with
  | [] => false
  | _ :: _ => true
  end.

(** A computation inside a [try] block that talks to the backend. *)
Definition Oqs {oqs : Backend} (A : Type) : Type :=
  World → completion A * World.

Definition oqs_bind {oqs : Backend} {A B} (m : Oqs A) (k : A → Oqs B) : Oqs B :=
  λ w, match m w with
       | (Return a, w') => k a w'
       | (Raise e, w') => (Raise e, w')
       end.

Definition oqs_ret {oqs : Backend} {A} (a : A) : Oqs A := λ w, (Return a, w).

Notation "x <- m ;; k" := (oqs_bind m (λ x, k))
  (at level 100, m at next level, right associativity).

(** ** Process state and algorithm objects *)

Section Process.
Context {oqs : Backend}.

(** The module global, the two class attributes, and the backend's
    world. *)
Record State := {
  LIBOQS_AVAILABLE : bool;
  Dilithium_mock_keypairs : gmap bytes bytes;
  SPHINCS_mock_keypairs : gmap bytes bytes;
  world : World
}.

Definition set_LIBOQS_AVAILABLE (b : bool) (st : State) : State :=
  {| LIBOQS_AVAILABLE := b;
     Dilithium_mock_keypairs := Dilithium_mock_keypairs st;
     SPHINCS_mock_keypairs := SPHINCS_mock_keypairs st;
     world := world st |}.

Definition set_world (w : World) (st : State) : State :=
  {| LIBOQS_AVAILABLE := LIBOQS_AVAILABLE st;
     Dilithium_mock_keypairs := Dilithium_mock_keypairs st;
     SPHINCS_mock_keypairs := SPHINCS_mock_keypairs st;
     world := w |}.

Definition set_Dilithium_mock_keypairs (m : gmap bytes bytes)
    (st : State) : State :=
  {| LIBOQS_AVAILABLE := LIBOQS_AVAILABLE st;
     Dilithium_mock_keypairs := m;
     SPHINCS_mock_keypairs := SPHINCS_mock_keypairs st;
     world := world st |}.

Definition set_SPHINCS_mock_keypairs (m : gmap bytes bytes)
    (st : State) : State :=
  {| LIBOQS_AVAILABLE := LIBOQS_AVAILABLE st;
     Dilithium_mock_keypairs := Dilithium_mock_keypairs st;
     SPHINCS_mock_keypairs := m;
     world := world st |}.

(** State right after the module is imported; [imported] tells whether
    [import oqs] succeeded. *)
Definition initial_state (imported : bool) (w : World) : State :=
  {| LIBOQS_AVAILABLE := imported;
     Dilithium_mock_keypairs := ∅;
     SPHINCS_mock_keypairs := ∅;
     world := w |}.

(** Attributes of an algorithm object. *)
Record Instance := {
  security_level : Z;
  signer : option Handle;
  variant : option string;
  enabled_sigs : list string
}.

Definition set_enabled_sigs (l : list string) (self : Instance) : Instance :=
  {| security_level := security_level self; signer := signer self;
     variant := variant self; enabled_sigs := l |}.

Definition set_variant (v : option string) (self : Instance) : Instance :=
  {| security_level := security_level self; signer := signer self;
     variant := v; enabled_sigs := enabled_sigs self |}.

Definition set_signer (s : option Handle) (self : Instance) : Instance :=
  {| security_level := security_level self; signer := s;
     variant := variant self; enabled_sigs := enabled_sigs self |}.

(** The branch condition [not LIBOQS_AVAILABLE or self.signer is None]. *)
Definition mock_mode (self : Instance) (st : State) : bool :=
  negb (LIBOQS_AVAILABLE st) ||
  match signer self with None => true | Some _ => false end.
End Process.

(** ** [class DilithiumSignature] *)

Module DilithiumSignature.
Section Methods.
Context {oqs : Backend}.

Definition dilithium_variants : gmap Z (list string) :=
  {[ 2 := ["ML-DSA-44"; "Dilithium2"];
     3 := ["ML-DSA-65"; "Dilithium3"];
     5 := ["ML-DSA-87"; "Dilithium5"] ]}%string.

Definition init (level : Z) (st : State) : completion Instance * State :=
  let self := {| security_level := level; signer := None;
                 variant := None; enabled_sigs := [] |} in
  let '(self, st) :=
    if LIBOQS_AVAILABLE st then
      match get_enabled_sig_mechanisms (world st) with
      | (Return sigs, w) => (set_enabled_sigs sigs self, set_world w st)
      | (Raise _, w) => (self, set_LIBOQS_AVAILABLE false (set_world w st))
      end
    else (self, st) in
  if negb (LIBOQS_AVAILABLE st) then (Return self, st)
  else
    match dilithium_variants !! level with
    | None =>
        (Raise (ValueError ("Invalid security level: " +:+ str_int level
                            +:+ ". Must be 2, 3, or 5.")), st)
    | Some names =>
        match find (λ v, bool_decide (v ∈ enabled_sigs self)) names with
        | None => (Return self, set_LIBOQS_AVAILABLE false st)
        | Some v =>
            let self := set_variant (Some v) self in
            match Signature (variant self) None (world st) with
            | (Return h, w) =>
                (Return (set_signer (Some h) self), set_world w st)
            | (Raise _, w) =>
                (Return self, set_LIBOQS_AVAILABLE false (set_world w st))
            end
        end
    end.

(** The [name] property. *)
Definition name (self : Instance) (st : State) : string :=
  match LIBOQS_AVAILABLE st, signer self with
  | true, Some _ =>
      "CRYSTALS-Dilithium (Level " +:+ str_int (security_level self) +:+ ")"
  | _, _ =>
      "CRYSTALS-Dilithium (Level " +:+ str_int (security_level self)
      +:+ ") [Mock]"
  end.

(** The mock branch of [generate_keypair]. *)
Definition mock_generate_keypair (env : Environ) (self : Instance)
    (st : State) : (bytes * bytes) * State :=
  let node_id := get_node_id env in
  let seed := "dilithium-" +:+ str_int (security_level self)
              +:+ "-private-" +:+ node_id in
  let private_key := hashlib.sha256 (encode seed) in
  let pub_seed := "dilithium-" +:+ str_int (security_level self)
                  +:+ "-public-" +:+ hex private_key in
  let public_key := hashlib.sha256 (encode pub_seed) in
  ((public_key, private_key),
   set_Dilithium_mock_keypairs
     (<[public_key := private_key]> (Dilithium_mock_keypairs st)) st).

(** The three methods call themselves after a backend failure.  [depth] is
    the number of nested invocations allowed; [None] means one more was
    needed.  The first test of each method,
    [not LIBOQS_AVAILABLE or self.signer is None], is the fall-through case
    of the [match]. *)
Fixpoint generate_keypair (depth : nat) (env : Environ) (self : Instance)
    (st : State) : option ((bytes * bytes) * State) :=
  match depth with
  | O => None
  | S depth' =>
      match LIBOQS_AVAILABLE st, signer self with
      | true, Some h =>
          match (public_key <- handle_generate_keypair h ;;
                 private_key <- handle_export_secret_key h ;;
                 oqs_ret (public_key, private_key)) (world st) with
          | (Return keys, w) => Some (keys, set_world w st)
          | (Raise _, w) =>
              generate_keypair depth' env self
                (set_LIBOQS_AVAILABLE false (set_world w st))
          end
      | _, _ => Some (mock_generate_keypair env self st)
      end
  end.

(** The mock branch of [sign]. *)
Definition mock_sign (private_key message : bytes) : bytes :=
  hmac.new_sha256_digest private_key message.

Fixpoint sign (depth : nat) (self : Instance) (private_key message : bytes)
    (st : State) : option (bytes * State) :=
  match depth with
  | O => None
  | S depth' =>
      match LIBOQS_AVAILABLE st, signer self with
      | true, Some _ =>
          match (signer <- Signature (variant self) (Some private_key) ;;
                 handle_sign signer message) (world st) with
          | (Return signature, w) => Some (signature, set_world w st)
          | (Raise _, w) =>
              sign depth' self private_key message
                (set_LIBOQS_AVAILABLE false (set_world w st))
          end
      | _, _ => Some (mock_sign private_key message, st)
      end
  end.

(** The mock branch of [verify]. *)
Definition mock_verify (public_key message signature : bytes)
    (st : State) : bool :=
  let private_key := Dilithium_mock_keypairs st !! public_key in
  match private_key with
  | Some private_key =>
      if truthy private_key then
        let expected_signature :=
          hmac.new_sha256_digest private_key message in
        hmac.compare_digest signature expected_signature
      else bool_decide (length signature = 32%nat)
  | None => bool_decide (length signature = 32%nat)
  end.

Fixpoint verify (depth : nat) (self : Instance)
    (public_key message signature : bytes) (st : State)
    : option (bool * State) :=
  match depth with
  | O => None
  | S depth' =>
      match LIBOQS_AVAILABLE st, signer self with
      | true, Some _ =>
          match (verifier <- Signature (variant self) None ;;
                 handle_verify verifier message signature public_key)
                  (world st) with
          | (Return result, w) => Some (result, set_world w st)
          | (Raise _, w) =>
              verify depth' self public_key message signature
                (set_LIBOQS_AVAILABLE false (set_world w st))
          end
      | _, _ => Some (mock_verify public_key message signature st, st)
      end
  end.
End Methods.
End DilithiumSignature.

(** ** [class SPHINCSSignature] *)

Module SPHINCSSignature.
Section Methods.
Context {oqs : Backend}.

Definition sphincs_variants : gmap Z (list string) :=
  {[ 1 := ["SPHINCS+-SHA2-128f-simple"];
     3 := ["SPHINCS+-SHA2-192f-simple"];
     5 := ["SPHINCS+-SHA2-256f-simple"] ]}%string.

Definition init (level : Z) (st : State) : completion Instance * State :=
  let self := {| security_level := level; signer := None;
                 variant := None; enabled_sigs := [] |} in
  let '(self, st) :=
    if LIBOQS_AVAILABLE st then
      match get_enabled_sig_mechanisms (world st) with
      | (Return sigs, w) => (set_enabled_sigs sigs self, set_world w st)
      | (Raise _, w) => (self, set_LIBOQS_AVAILABLE false (set_world w st))
      end
    else (self, st) in
  if negb (LIBOQS_AVAILABLE st) then (Return self, st)
  else
    match sphincs_variants !! level with
    | None =>
        (Raise (ValueError ("Invalid security level: " +:+ str_int level
                            +:+ ". Must be 1, 3, or 5.")), st)
    | Some names =>
        match find (λ v, bool_decide (v ∈ enabled_sigs self)) names with
        | None => (Return self, set_LIBOQS_AVAILABLE false st)
        | Some v =>
            let self := set_variant (Some v) self in
            match Signature (variant self) None (world st) with
            | (Return h, w) =>
                (Return (set_signer (Some h) self), set_world w st)
            | (Raise _, w) =>
                (Return self, set_LIBOQS_AVAILABLE false (set_world w st))
            end
        end
    end.

(** The [name] property. *)
Definition name (self : Instance) (st : State) : string :=
  match LIBOQS_AVAILABLE st, signer self with
  | true, Some _ =>
      "SPHINCS+ (Level " +:+ str_int (security_level self) +:+ ")"
  | _, _ =>
      "SPHINCS+ (Level " +:+ str_int (security_level self) +:+ ") [Mock]"
  end.

(** The mock branch of [generate_keypair]. *)
Definition mock_generate_keypair (env : Environ) (self : Instance)
    (st : State) : (bytes * bytes) * State :=
  let node_id := get_node_id env in
  let seed := "sphincs-" +:+ str_int (security_level self)
              +:+ "-private-" +:+ node_id in
  let private_key := hashlib.sha256 (encode seed) in
  let pub_seed := "sphincs-" +:+ str_int (security_level self)
                  +:+ "-public-" +:+ hex private_key in
  let public_key := hashlib.sha256 (encode pub_seed) in
  ((public_key, private_key),
   set_SPHINCS_mock_keypairs
     (<[public_key := private_key]> (SPHINCS_mock_keypairs st)) st).

Fixpoint generate_keypair (depth : nat) (env : Environ) (self : Instance)
    (st : State) : option ((bytes * bytes) * State) :=
  match depth with
  | O => None
  | S depth' =>
      match LIBOQS_AVAILABLE st, signer self with
      | true, Some h =>
          match (public_key <- handle_generate_keypair h ;;
                 private_key <- handle_export_secret_key h ;;
                 oqs_ret (public_key, private_key)) (world st) with
          | (Return keys, w) => Some (keys, set_world w st)
          | (Raise _, w) =>
              generate_keypair depth' env self
                (set_LIBOQS_AVAILABLE false (set_world w st))
          end
      | _, _ => Some (mock_generate_keypair env self st)
      end
  end.

(** The mock branch of [sign]. *)
Definition mock_sign (private_key message : bytes) : bytes :=
  let digest := hashlib.sha384 in
  let digest := hashlib.update digest private_key in
  let digest := hashlib.update digest message in
  hashlib.digest digest.

Fixpoint sign (depth : nat) (self : Instance) (private_key message : bytes)
    (st : State) : option (bytes * State) :=
  match depth with
  | O => None
  | S depth' =>
      match LIBOQS_AVAILABLE st, signer self with
      | true, Some _ =>
          match (signer <- Signature (variant self) (Some private_key) ;;
                 handle_sign signer message) (world st) with
          | (Return signature, w) => Some (signature, set_world w st)
          | (Raise _, w) =>
              sign depth' self private_key message
                (set_LIBOQS_AVAILABLE false (set_world w st))
          end
      | _, _ => Some (mock_sign private_key message, st)
      end
  end.

(** The mock branch of [verify]. *)
Definition mock_verify (public_key message signature : bytes)
    (st : State) : bool :=
  let private_key := SPHINCS_mock_keypairs st !! public_key in
  match private_key with
  | Some private_key =>
      if truthy private_key then
        let digest := hashlib.sha384 in
        let digest := hashlib.update digest private_key in
        let digest := hashlib.update digest message in
        let expected_signature := hashlib.digest digest in
        hmac.compare_digest signature expected_signature
      else bool_decide (length signature = 48%nat)
  | None => bool_decide (length signature = 48%nat)
  end.

Fixpoint verify (depth : nat) (self : Instance)
    (public_key message signature : bytes) (st : State)
    : option (bool * State) :=
  match depth with
  | O => None
  | S depth' =>
      match LIBOQS_AVAILABLE st, signer self with
      | true, Some _ =>
          match (verifier <- Signature (variant self) None ;;
                 handle_verify verifier message signature public_key)
                  (world st) with
          | (Return result, w) => Some (result, set_world w st)
          | (Raise _, w) =>
              verify depth' self public_key message signature
                (set_LIBOQS_AVAILABLE false (set_world w st))
          end
      | _, _ => Some (mock_verify public_key message signature st, st)
      end
  end.
End Methods.
End SPHINCSSignature.

(** ** [SignatureAlgorithm]: dispatch on the class of the object *)

Inductive Family := Dilithium | SPHINCS.

Global Instance Family_eq_dec : EqDecision Family.
Proof. solve_decision. Defined.

Section Dispatch.
Context {oqs : Backend}.

Definition init (f : Family) :=
  match f with
  | Dilithium => DilithiumSignature.init
  | SPHINCS => SPHINCSSignature.init
  end.

Definition generate_keypair (f : Family) :=
  match f with
  | Dilithium => DilithiumSignature.generate_keypair
  | SPHINCS => SPHINCSSignature.generate_keypair
  end.

Definition sign (f : Family) :=
  match f with
  | Dilithium => DilithiumSignature.sign
  | SPHINCS => SPHINCSSignature.sign
  end.

Definition verify (f : Family) :=
  match f with
  | Dilithium => DilithiumSignature.verify
  | SPHINCS => SPHINCSSignature.verify
  end.

Definition mock_generate_keypair (f : Family) :=
  match f with
  | Dilithium => DilithiumSignature.mock_generate_keypair
  | SPHINCS => SPHINCSSignature.mock_generate_keypair
  end.

Definition mock_sign (f : Family) :=
  match f with
  | Dilithium => DilithiumSignature.mock_sign
  | SPHINCS => SPHINCSSignature.mock_sign
  end.

Definition mock_verify (f : Family) :=
  match f with
  | Dilithium => DilithiumSignature.mock_verify
  | SPHINCS => SPHINCSSignature.mock_verify
  end.

(** The class attribute [_mock_keypairs] of a family. *)
Definition mock_keypairs (f : Family) (st : State) : gmap bytes bytes :=
  match f with
  | Dilithium => Dilithium_mock_keypairs st
  | SPHINCS => SPHINCS_mock_keypairs st
  end.

(** One call made by the host program, and the states it relates.  The
    object a method is called on is any [Instance] at all, which covers every
    object a constructor call can have built. *)
Inductive step : State → State → Prop :=
| step_init f level st r st' :
    init f level st = (r, st') → step st st'
| step_generate_keypair f depth env self st keys st' :
    generate_keypair f depth env self st = Some (keys, st') → step st st'
| step_sign f depth self private_key message st signature st' :
    sign f depth self private_key message st = Some (signature, st') →
    step st st'
| step_verify f depth self public_key message signature st result st' :
    verify f depth self public_key message signature st = Some (result, st') →
    step st st'.

(** States a process can be in: any number of calls after import. *)
Definition reachable (st : State) : Prop :=
  ∃ imported w, rtc step (initial_state imported w) st.
End Dispatch.

(** ** Vocabulary of the properties *)

Section Vocabulary.
Context {oqs : Backend}.
Implicit Types (st : State) (self : Instance) (f : Family).

(** Levels each class documents. *)
Definition supported_levels f : list Z :=
  match f with
  | Dilithium => [2; 3; 5]
  | SPHINCS => [1; 3; 5]
  end.

(** Name of a family as the seed strings spell it. *)
Definition family_name f : string :=
  match f with
  | Dilithium => "dilithium"
  | SPHINCS => "sphincs"
  end.

(** Length of a mock signature of each family. *)
Definition mock_signature_length f : nat :=
  match f with
  | Dilithium => 32
  | SPHINCS => 48
  end.

(** Both registries are as they were. *)
Definition same_registries st st' : Prop :=
  Dilithium_mock_keypairs st' = Dilithium_mock_keypairs st ∧
  SPHINCS_mock_keypairs st' = SPHINCS_mock_keypairs st.

(** A flag that is down stays down. *)
Definition flag_le st st' : Prop :=
  LIBOQS_AVAILABLE st = false → LIBOQS_AVAILABLE st' = false.

(** Every private key on record is a SHA-256 digest. *)
Definition registry_wf st : Prop :=
  ∀ f pk sk, mock_keypairs f st !! pk = Some sk → length sk = 32%nat.

(** The registry of [f] after a call: untouched, or one entry written. *)
Definition registry_step f st st' : Prop :=
  mock_keypairs f st' = mock_keypairs f st ∨
  ∃ pk sk, mock_keypairs f st' = <[pk := sk]> (mock_keypairs f st) ∧
           length sk = 32%nat.

(** The bodies of the three [try] blocks. *)
Definition try_generate_keypair (h : Handle) : Oqs (bytes * bytes) :=
  public_key <- handle_generate_keypair h ;;
  private_key <- handle_export_secret_key h ;;
  oqs_ret (public_key, private_key).

Definition try_sign self (private_key message : bytes) : Oqs bytes :=
  signer <- Signature (variant self) (Some private_key) ;;
  handle_sign signer message.

Definition try_verify self (public_key message signature : bytes) : Oqs bool :=
  verifier <- Signature (variant self) None ;;
  handle_verify verifier message signature public_key.

(** The state in which an operation calls itself again. *)
Definition degraded (w : World) st : State :=
  set_LIBOQS_AVAILABLE false (set_world w st).
End Vocabulary.

(** ** Two concrete hosts *)

(** A host without the native library: [import oqs] failed and nothing of
    it can be called. *)
Definition absent_oqs : Backend := {|
  World := unit;
  Handle := unit;
  get_enabled_sig_mechanisms := λ w, (Raise (BackendError "no oqs"), w);
  Signature := λ _ _ w, (Raise (BackendError "no oqs"), w);
  handle_generate_keypair := λ _ w, (Raise (BackendError "no oqs"), w);
  handle_export_secret_key := λ _ w, (Raise (BackendError "no oqs"), w);
  handle_sign := λ _ _ w, (Raise (BackendError "no oqs"), w);
  handle_verify := λ _ _ _ _ w, (Raise (BackendError "no oqs"), w)
|}.

(** A library that serves a given number of calls and fails from then on.
    Its world is the number of calls it will still serve; a handle is the
    mechanism name it was opened with. *)
Definition serve {A} (a : A) (calls : nat) : completion A * nat :=
  match calls with
  | O => (Raise (BackendError "liboqs failure"), O)
  | S calls' => (Return a, calls')
  end.

Definition flaky_oqs : Backend := {|
  World := nat;
  Handle := string;
  get_enabled_sig_mechanisms :=
    serve ["ML-DSA-65"; "Dilithium2"; "SPHINCS+-SHA2-192f-simple"]%string;
  Signature := λ name _, serve (default ""%string name);
  handle_generate_keypair := λ h, serve (encode ("pk:" +:+ h));
  handle_export_secret_key := λ h, serve (encode ("sk:" +:+ h));
  handle_sign := λ h message, serve (encode h ++ message);
  handle_verify := λ h message signature _,
    serve (bool_decide (signature = encode h ++ message))
|}.

Definition env_node1 : Environ :=
  {| NODE_ID := Some "node-1"%string; get_ident := 140 |}.

(** No [NODE_ID] in the environment: the thread identifier is used. *)
Definition env_thread7 : Environ :=
  {| NODE_ID := None; get_ident := 7 |}.

Definition env_node7 : Environ :=
  {| NODE_ID := Some "7"%string; get_ident := 140 |}.

(** An object as the constructor leaves it in mock mode. *)
Definition mock_instance {oqs : Backend} (level : Z) : Instance :=
  {| security_level := level; signer := None;
     variant := None; enabled_sigs := [] |}.

Definition absent_state : @State absent_oqs := @initial_state absent_oqs false tt.

(** The host without the library after one Dilithium key generation. *)
Definition absent_keys : bytes * bytes :=
  (@DilithiumSignature.mock_generate_keypair absent_oqs
     env_node1 (mock_instance 3) absent_state).1.

Definition absent_state1 : @State absent_oqs :=
  (@DilithiumSignature.mock_generate_keypair absent_oqs
     env_node1 (mock_instance 3) absent_state).2.

(** [flaky_oqs] with [calls] calls left, right after import. *)
Definition flaky_state (calls : nat) : @State flaky_oqs :=
  @initial_state flaky_oqs true calls.

(** The object [DilithiumSignature(3)] builds on [flaky_oqs]. *)
Definition flaky_dilithium3 : @Instance flaky_oqs :=
  {| security_level := 3;
     signer := Some ("ML-DSA-65"%string : @Handle flaky_oqs);
     variant := Some "ML-DSA-65"%string;
     enabled_sigs :=
       ["ML-DSA-65"; "Dilithium2"; "SPHINCS+-SHA2-192f-simple"]%string |}.

(** [flaky_oqs] once a failed call has brought the flag down, and the same
    process after the object built on the working backend has generated a
    key pair. *)
Definition flaky_degraded : @State flaky_oqs :=
  @degraded flaky_oqs 0%nat (flaky_state 1).

Definition flaky_degraded1 : @State flaky_oqs :=
  (@DilithiumSignature.mock_generate_keypair flaky_oqs
     env_node1 flaky_dilithium3 flaky_degraded).2.

(** ** Seeds, names and the code that reads them *)

(** The two f-strings hashed by the mock [generate_keypair]. *)
Definition private_seed (f : Family) (level : Z) (node_id : string) : string :=
  family_name f +:+ "-" +:+ str_int level +:+ "-private-" +:+ node_id.

Definition public_seed (f : Family) (level : Z) (private_key : bytes) : string :=
  family_name f +:+ "-" +:+ str_int level +:+ "-public-" +:+ hex private_key.

(** The pair the mock [generate_keypair] derives for a level and node. *)
Definition mock_pair (f : Family) (level : Z) (node_id : string)
    : bytes * bytes :=
  let private_key := hashlib.sha256 (encode (private_seed f level node_id)) in
  (hashlib.sha256 (encode (public_seed f level private_key)), private_key).

(** A decimal digit, and a string of them. *)
Definition is_digit (c : ascii) : bool :=
  (48 <=? nat_of_ascii c)%nat && (nat_of_ascii c <=? 57)%nat.

Fixpoint all_digits (s : string) : bool :=
  match s with
  | EmptyString => true
  | String c s' => is_digit c && all_digits s'
  end.

(** A string that does not go on with a digit. *)
Definition no_digit_ahead (s : string) : Prop :=
  match s with
  | EmptyString => True
  | String c _ => is_digit c = false
  end.

(** [str.isspace] on an ASCII character: tab to carriage return, the four
    separators [0x1c]-[0x1f], and the space. *)
Definition is_space (c : ascii) : bool :=
  let n := nat_of_ascii c in
  ((9 <=? n)%nat && (n <=? 13)%nat) || ((28 <=? n)%nat && (n <=? 32)%nat).

(** [s.split()] on ASCII text: the maximal runs of non-space characters.
    [word] holds the characters of the run being read, last one first. *)
Fixpoint split_acc (word : string) (s : string) : list string :=
  match s with
  | EmptyString =>
      match word with
      | EmptyString => []
      | _ => [String.rev word]
      end
  | String c s' =>
      if is_space c then
        match word with
        | EmptyString => split_acc EmptyString s'
        | _ => String.rev word :: split_acc EmptyString s'
        end
      else split_acc (String c word) s'
  end.

Definition split (s : string) : list string := split_acc EmptyString s.

(** [main_window._async_start_network]: the part of the status line taken
    from the signature algorithm, [signature.name.split()[0]]; [None] is the
    [IndexError] of an empty list. *)
Definition signature_label (name : string) : option string :=
  head (split name).

(** [peer_list.update_peers]: the settings comparison and the status it
    puts after a connected peer. *)
Inductive Color := green | orange.

Definition has_mismatches (peer_settings : gmap string string)
    (my_settings : list (string * string)) : bool :=
  existsb (λ entry,
             match peer_settings !! entry.1 with
             | Some theirs => negb (bool_decide (theirs = entry.2))
             | None => false
             end) my_settings.

(** What [update_peers] reads of [self.secure_messaging]: the three [name]
    properties and [peer_crypto_settings]. *)
Record SecureMessaging := {
  key_exchange_name : string;
  symmetric_name : string;
  signature_name : string;
  peer_crypto_settings : gmap string (gmap string string)
}.

Definition connected_status (secure_messaging : option SecureMessaging)
    (node_id : string) : string * Color :=
  let status_text := " [Connected"%string in
  match secure_messaging with
  | Some sm =>
      match peer_crypto_settings sm !! node_id with
      | Some peer_settings =>
          let my_settings :=
            [("key_exchange", key_exchange_name sm);
             ("symmetric", symmetric_name sm);
             ("signature", signature_name sm)]%string in
          if has_mismatches peer_settings my_settings
          then (status_text +:+ ", ⚠️ Settings differ]", orange)
          else (status_text +:+ ", ✓ Compatible]", green)
      | None => (status_text +:+ "]", green)
      end
  | None => (status_text +:+ "]", green)
  end.

Section Further.
Context {oqs : Backend}.
Implicit Types (st : State) (self : Instance) (f : Family).

(** The [name] property and the variant table, by class. *)
Definition name f :=
  match f with
  | Dilithium => DilithiumSignature.name
  | SPHINCS => SPHINCSSignature.name
  end.

Definition variants f : gmap Z (list string) :=
  match f with
  | Dilithium => DilithiumSignature.dilithium_variants
  | SPHINCS => SPHINCSSignature.sphincs_variants
  end.

(** Every registered pair is one the mock engine derives. *)
Definition registry_genuine st : Prop :=
  ∀ f pk sk,
    mock_keypairs f st !! pk = Some sk →
    ∃ level node_id, (pk, sk) = mock_pair f level node_id.
End Further.

(** The text of the constructor's error. *)
Definition invalid_level_message (f : Family) (level : Z) : string :=
  "Invalid security level: " +:+ str_int level +:+ ". Must be "
  +:+ match f with Dilithium => "2, 3, or 5" | SPHINCS => "1, 3, or 5" end
  +:+ ".".

(** First word of each class's [name]. *)
Definition family_label (f : Family) : string :=
  match f with
  | Dilithium => "CRYSTALS-Dilithium"
  | SPHINCS => "SPHINCS+"
  end.

(** Further inputs for the concrete runs. *)
Definition env_thread8 : Environ :=
  {| NODE_ID := None; get_ident := 8 |}.


(** A node in mock mode that heard from a peer announcing the backend
    name of the same algorithm. *)
Definition remote_settings : gmap string string :=
  {[ "signature"%string := "CRYSTALS-Dilithium (Level 3)"%string ]}.

Definition local_messaging : SecureMessaging :=
  {| key_exchange_name := "ML-KEM (Level 3) [Mock]";
     symmetric_name := "AES-256-GCM";
     signature_name := "CRYSTALS-Dilithium (Level 3) [Mock]";
     peer_crypto_settings := {[ "peer-1"%string := remote_settings ]} |}.

(** ** Facts about the primitives *)

Arguments SHA2.hash : simpl never.
Arguments hashlib.sha256 : simpl never.
Arguments hashlib.digest : simpl never.
Arguments hmac.new_sha256_digest : simpl never.
Arguments hex : simpl never.
Arguments encode : simpl never.
Arguments str_int : simpl never.

Lemma be_bytes_length n z : length (be_bytes n z) = n.
Proof. induction n as [| n IH]; simpl; [reflexivity | now rewrite IH]. Qed.

Lemma serialise_length p v :
  length (SHA2.serialise p v) = (8 * SHA2.word_bytes p)%nat.
Proof.
  unfold SHA2.serialise. cbn [flat_map].
  rewrite !length_app, !be_bytes_length. simpl. lia.
Qed.

Lemma hash_length p msg :
  (SHA2.digest_size p ≤ 8 * SHA2.word_bytes p)%nat →
  length (SHA2.hash p msg) = SHA2.digest_size p.
Proof.
  intros Hle. unfold SHA2.hash.
  rewrite length_take, serialise_length. lia.
Qed.

Lemma sha256_length data : length (hashlib.sha256 data) = 32%nat.
Proof. unfold hashlib.sha256. rewrite hash_length; simpl; lia. Qed.

Lemma sha384_digest_length h : length (hashlib.digest h) = 48%nat.
Proof. unfold hashlib.digest. rewrite hash_length; simpl; lia. Qed.

Lemma hmac_length key msg : length (hmac.new_sha256_digest key msg) = 32%nat.
Proof. unfold hmac.new_sha256_digest. apply sha256_length. Qed.

Lemma sha384_update_update a b :
  hashlib.digest (hashlib.update (hashlib.update hashlib.sha384 a) b)
  = SHA2.hash SHA2.sha384_params (a ++ b).
Proof. reflexivity. Qed.

Lemma byte_to_Z_of_Z z : byte_to_Z (byte_of_Z z) = z mod 256.
Proof.
  unfold byte_of_Z, byte_to_Z.
  assert (0 ≤ z mod 256 < 256) as Hr by (apply Z.mod_pos_bound; lia).
  destruct (Byte.of_N (Z.to_N (z mod 256))) as [b |] eqn:E.
  - apply Byte.to_of_N in E. rewrite E. lia.
  - apply Byte.of_N_None_iff in E. lia.
Qed.

Lemma flip_byte_ne b k :
  (k < 8)%nat → byte_of_Z (Z.lxor (byte_to_Z b) (2 ^ Z.of_nat k)) ≠ b.
Proof.
  intros Hk Heq. apply (f_equal byte_to_Z) in Heq.
  rewrite byte_to_Z_of_Z in Heq.
  apply (f_equal (λ z, Z.testbit z (Z.of_nat k))) in Heq.
  change 256 with (2 ^ 8) in Heq.
  rewrite Z.mod_pow2_bits_low, Z.lxor_spec, Z.pow2_bits_true in Heq by lia.
  destruct (Z.testbit (byte_to_Z b) (Z.of_nat k)); discriminate.
Qed.

Lemma flip_bit_ne i (bs : bytes) :
  (i < 8 * length bs)%nat → flip_bit i bs ≠ bs.
Proof.
  intros Hi. unfold flip_bit.
  assert (i / 8 < length bs)%nat as Hlt
    by (apply Nat.Div0.div_lt_upper_bound; lia).
  destruct (lookup_lt_is_Some_2 bs _ Hlt) as [b Hb]. rewrite Hb.
  intros Heq. apply (f_equal (λ l : bytes, l !! (i / 8)%nat)) in Heq.
  rewrite list_lookup_insert_eq, Hb in Heq by exact Hlt.
  injection Heq. apply flip_byte_ne.
  pose proof (Nat.mod_upper_bound i 8). lia.
Qed.

Lemma truthy_length (b : bytes) n : length b = S n → truthy b = true.
Proof. destruct b; [discriminate | reflexivity]. Qed.


(** ** Facts about the operations *)

Section Facts.
Context {oqs : Backend}.
Implicit Types (st : State) (self : Instance) (f : Family).

Lemma mock_mode_flag self st :
  LIBOQS_AVAILABLE st = false → mock_mode self st = true.
Proof. unfold mock_mode. now intros ->. Qed.

Lemma mock_mode_cases self st :
  mock_mode self st = true →
  LIBOQS_AVAILABLE st = false ∨ signer self = None.
Proof.
  unfold mock_mode.
  destruct (LIBOQS_AVAILABLE st), (signer self); simpl; auto; discriminate.
Qed.

Ltac mock_branch H :=
  apply mock_mode_cases in H; destruct H as [H | H];
  match goal with |- context [?op ?f (S _)] => destruct f end;
  simpl; rewrite H; try reflexivity;
  match goal with |- context [LIBOQS_AVAILABLE ?st] =>
    destruct (LIBOQS_AVAILABLE st); reflexivity end.

Lemma generate_keypair_mock f n env self st :
  mock_mode self st = true →
  generate_keypair f (S n) env self st
  = Some (mock_generate_keypair f env self st).
Proof. intros H. mock_branch H. Qed.

Lemma sign_mock f n self private_key message st :
  mock_mode self st = true →
  sign f (S n) self private_key message st
  = Some (mock_sign f private_key message, st).
Proof. intros H. mock_branch H. Qed.

Lemma verify_mock f n self public_key message signature st :
  mock_mode self st = true →
  verify f (S n) self public_key message signature st
  = Some (mock_verify f public_key message signature st, st).
Proof. intros H. mock_branch H. Qed.

(** What the mock key generation does to the state. *)
Lemma mock_generate_keypair_state f env self st :
  let '((pk, sk), st') := mock_generate_keypair f env self st in
  mock_keypairs f st' = <[pk := sk]> (mock_keypairs f st) ∧
  (∀ g, g ≠ f → mock_keypairs g st' = mock_keypairs g st) ∧
  LIBOQS_AVAILABLE st' = LIBOQS_AVAILABLE st ∧
  world st' = world st ∧
  length pk = 32%nat ∧ length sk = 32%nat.
Proof.
  destruct f; simpl; (split; [reflexivity |]);
    (split; [intros [] ?; [done .. | done] |]);
    repeat split; apply sha256_length.
Qed.

(** *** The backend branch *)

Lemma not_mock_mode self st :
  mock_mode self st = false →
  LIBOQS_AVAILABLE st = true ∧ ∃ h, signer self = Some h.
Proof.
  unfold mock_mode.
  destruct (LIBOQS_AVAILABLE st), (signer self); simpl; try discriminate.
  eauto.
Qed.

Lemma generate_keypair_0 f env self st :
  generate_keypair f 0 env self st = None.
Proof. now destruct f. Qed.

Lemma sign_0 f self private_key message st :
  sign f 0 self private_key message st = None.
Proof. now destruct f. Qed.

Lemma verify_0 f self public_key message signature st :
  verify f 0 self public_key message signature st = None.
Proof. now destruct f. Qed.

Lemma generate_keypair_real f n env self st h :
  LIBOQS_AVAILABLE st = true → signer self = Some h →
  generate_keypair f (S n) env self st
  = match try_generate_keypair h (world st) with
    | (Return keys, w) => Some (keys, set_world w st)
    | (Raise _, w) => generate_keypair f n env self (degraded w st)
    end.
Proof. destruct f; simpl; intros -> ->; reflexivity. Qed.

Lemma sign_real f n self private_key message st h :
  LIBOQS_AVAILABLE st = true → signer self = Some h →
  sign f (S n) self private_key message st
  = match try_sign self private_key message (world st) with
    | (Return signature, w) => Some (signature, set_world w st)
    | (Raise _, w) => sign f n self private_key message (degraded w st)
    end.
Proof. destruct f; simpl; intros -> ->; reflexivity. Qed.

Lemma verify_real f n self public_key message signature st h :
  LIBOQS_AVAILABLE st = true → signer self = Some h →
  verify f (S n) self public_key message signature st
  = match try_verify self public_key message signature (world st) with
    | (Return result, w) => Some (result, set_world w st)
    | (Raise _, w) =>
        verify f n self public_key message signature (degraded w st)
    end.
Proof. destruct f; simpl; intros -> ->; reflexivity. Qed.

Lemma mock_keypairs_degraded f w st :
  mock_keypairs f (degraded w st) = mock_keypairs f st.
Proof. now destruct f. Qed.

Lemma mock_keypairs_set_world f w st :
  mock_keypairs f (set_world w st) = mock_keypairs f st.
Proof. now destruct f. Qed.

(** *** What one call can do to the state *)

Lemma same_registries_mock_keypairs st st' :
  same_registries st st' ↔ ∀ f, mock_keypairs f st' = mock_keypairs f st.
Proof.
  split.
  - intros [HD HS] []; assumption.
  - intros H. split; [apply (H Dilithium) | apply (H SPHINCS)].
Qed.

Lemma init_effect f level st r st' :
  init f level st = (r, st') → flag_le st st' ∧ same_registries st st'.
Proof.
  unfold flag_le, same_registries.
  destruct f; simpl;
    [unfold DilithiumSignature.init | unfold SPHINCSSignature.init];
    intros H; repeat case_match; simplify_eq/=;
    (split; [congruence || reflexivity | split; reflexivity]).
Qed.

Lemma generate_keypair_effect f depth env self st keys st' :
  generate_keypair f depth env self st = Some (keys, st') →
  flag_le st st' ∧
  (∀ g, g ≠ f → mock_keypairs g st' = mock_keypairs g st) ∧
  (mock_keypairs f st' = mock_keypairs f st ∨
   mock_keypairs f st' = <[keys.1 := keys.2]> (mock_keypairs f st) ∧
   length keys.2 = 32%nat).
Proof.
  revert st. unfold flag_le.
  induction depth as [| depth IH]; intros st H.
  { now rewrite generate_keypair_0 in H. }
  destruct (mock_mode self st) eqn:Hm.
  - rewrite generate_keypair_mock in H by exact Hm.
    pose proof (mock_generate_keypair_state f env self st) as Hs.
    injection H as H. rewrite H in Hs. destruct keys as [pk sk].
    destruct Hs as (Hr & Hg & Hf & _ & _ & Hlen).
    split; [congruence | split; [exact Hg | right; now split]].
  - apply not_mock_mode in Hm as [Ha [h Hh]].
    rewrite (generate_keypair_real _ _ _ _ _ h Ha Hh) in H.
    destruct (try_generate_keypair h (world st)) as [[keys' | e] w].
    + injection H as <- <-. rewrite Ha.
      split; [discriminate |].
      split; [intros; apply mock_keypairs_set_world |].
      left. apply mock_keypairs_set_world.
    + apply IH in H as (_ & Hg & Hr). rewrite Ha.
      split; [discriminate |].
      setoid_rewrite mock_keypairs_degraded in Hg.
      rewrite !mock_keypairs_degraded in Hr. now split.
Qed.

Lemma sign_effect f depth self private_key message st signature st' :
  sign f depth self private_key message st = Some (signature, st') →
  flag_le st st' ∧ same_registries st st'.
Proof.
  revert st. unfold flag_le. setoid_rewrite same_registries_mock_keypairs.
  induction depth as [| depth IH]; intros st H.
  { now rewrite sign_0 in H. }
  destruct (mock_mode self st) eqn:Hm.
  - rewrite sign_mock in H by exact Hm. injection H as <- <-. now split.
  - apply not_mock_mode in Hm as [Ha [h Hh]].
    rewrite (sign_real _ _ _ _ _ _ h Ha Hh) in H.
    destruct (try_sign self private_key message (world st)) as [[sig | e] w].
    + injection H as <- <-. rewrite Ha.
      split; [discriminate | intros; apply mock_keypairs_set_world].
    + apply IH in H as [_ Hr]. rewrite Ha. split; [discriminate |].
      intros g. now rewrite Hr, mock_keypairs_degraded.
Qed.

Lemma verify_effect f depth self public_key message signature st result st' :
  verify f depth self public_key message signature st = Some (result, st') →
  flag_le st st' ∧ same_registries st st'.
Proof.
  revert st. unfold flag_le. setoid_rewrite same_registries_mock_keypairs.
  induction depth as [| depth IH]; intros st H.
  { now rewrite verify_0 in H. }
  destruct (mock_mode self st) eqn:Hm.
  - rewrite verify_mock in H by exact Hm. injection H as <- <-. now split.
  - apply not_mock_mode in Hm as [Ha [h Hh]].
    rewrite (verify_real _ _ _ _ _ _ _ h Ha Hh) in H.
    destruct (try_verify self public_key message signature (world st))
      as [[r | e] w].
    + injection H as <- <-. rewrite Ha.
      split; [discriminate | intros; apply mock_keypairs_set_world].
    + apply IH in H as [_ Hr]. rewrite Ha. split; [discriminate |].
      intros g. now rewrite Hr, mock_keypairs_degraded.
Qed.

Lemma step_effect st st' :
  step st st' → flag_le st st' ∧ ∀ f, registry_step f st st'.
Proof.
  unfold registry_step.
  destruct 1 as [f level st r st' H | f depth env self st keys st' H
                | f depth self sk m st sig st' H
                | f depth self pk m sig st r st' H].
  - apply init_effect in H as [Hf Hr].
    split; [exact Hf |]. intros g. left.
    now apply same_registries_mock_keypairs.
  - apply generate_keypair_effect in H as (Hf & Hg & Hr).
    split; [exact Hf |]. intros g.
    destruct (decide (g = f)) as [-> | Hne]; [| left; now apply Hg].
    destruct Hr as [Hr | [Hr Hlen]]; [now left | right; eauto].
  - apply sign_effect in H as [Hf Hr].
    split; [exact Hf |]. intros g. left.
    now apply same_registries_mock_keypairs.
  - apply verify_effect in H as [Hf Hr].
    split; [exact Hf |]. intros g. left.
    now apply same_registries_mock_keypairs.
Qed.

Lemma steps_flag st st' : rtc step st st' → flag_le st st'.
Proof.
  unfold flag_le. induction 1 as [| st st1 st' Hs _ IH]; [auto |].
  intros H. apply IH. now apply (step_effect _ _ Hs).
Qed.

Lemma steps_dom f st st' :
  rtc step st st' → dom (mock_keypairs f st) ⊆ dom (mock_keypairs f st').
Proof.
  induction 1 as [| st st1 st' Hs _ IH]; [done |].
  etrans; [| exact IH].
  destruct (proj2 (step_effect _ _ Hs) f) as [-> | (pk & sk & -> & _)];
    [done |].
  rewrite dom_insert_L. set_solver.
Qed.

Lemma step_registry_wf st st' : step st st' → registry_wf st → registry_wf st'.
Proof.
  intros Hs Hwf f pk sk.
  destruct (proj2 (step_effect _ _ Hs) f) as [-> | (pk' & sk' & -> & Hlen)];
    [apply Hwf |].
  rewrite lookup_insert. case_decide; [congruence | apply Hwf].
Qed.

Lemma reachable_registry_wf st : reachable st → registry_wf st.
Proof.
  intros (imported & w & Hrtc).
  assert (Hinit : registry_wf (initial_state imported w))
    by (intros [] pk sk; simpl; rewrite lookup_empty; discriminate).
  revert Hinit. induction Hrtc as [| st st1 st' Hs _ IH]; [auto |].
  intros Hwf. apply IH. now apply (step_registry_wf _ _ Hs).
Qed.
End Facts.

(** ** The mock verification, by cases on the registry *)

Section MockVerify.
Context {oqs : Backend}.
Implicit Types (st : State) (self : Instance) (f : Family).

Lemma mock_sign_length f private_key message :
  length (mock_sign f private_key message) = mock_signature_length f.
Proof. destruct f; [apply hmac_length | apply sha384_digest_length]. Qed.

Lemma mock_verify_hit f public_key private_key message signature st :
  mock_keypairs f st !! public_key = Some private_key →
  truthy private_key = true →
  mock_verify f public_key message signature st
  = bool_decide (signature = mock_sign f private_key message).
Proof.
  destruct f; simpl; intros Hl Ht;
    [unfold DilithiumSignature.mock_verify
    | unfold SPHINCSSignature.mock_verify];
    rewrite Hl, Ht; reflexivity.
Qed.

Lemma mock_verify_miss f public_key message signature st :
  mock_keypairs f st !! public_key = None →
  mock_verify f public_key message signature st
  = bool_decide (length signature = mock_signature_length f).
Proof.
  destruct f; simpl; intros Hl;
    [unfold DilithiumSignature.mock_verify
    | unfold SPHINCSSignature.mock_verify];
    rewrite Hl; reflexivity.
Qed.

Lemma mock_mode_same_flag self st st' :
  LIBOQS_AVAILABLE st' = LIBOQS_AVAILABLE st →
  mock_mode self st' = mock_mode self st.
Proof. unfold mock_mode. now intros ->. Qed.

(** In mock mode [name] carries the qualifier. *)
Lemma name_mock self st :
  mock_mode self st = true →
  DilithiumSignature.name self st
  = "CRYSTALS-Dilithium (Level " +:+ str_int (security_level self)
    +:+ ") [Mock]" ∧
  SPHINCSSignature.name self st
  = "SPHINCS+ (Level " +:+ str_int (security_level self) +:+ ") [Mock]".
Proof.
  intros H. apply mock_mode_cases in H.
  unfold DilithiumSignature.name, SPHINCSSignature.name.
  destruct H as [-> | ->]; [done |].
  now destruct (LIBOQS_AVAILABLE st).
Qed.

(** In a degraded process the constructor returns at its first test. *)
Lemma init_mock f level st :
  LIBOQS_AVAILABLE st = false →
  init f level st
  = (Return {| security_level := level; signer := None;
               variant := None; enabled_sigs := [] |}, st).
Proof.
  destruct f; simpl;
    [unfold DilithiumSignature.init | unfold SPHINCSSignature.init];
    intros H; rewrite H; simpl; rewrite H; reflexivity.
Qed.
End MockVerify.

(** ** Construction and the security level *)

Section Construction.
Context {oqs : Backend}.
Implicit Types (st : State) (self : Instance) (f : Family).

(** With the backend listed, the constructor raises on any other level. *)
Lemma init_rejects_when_available f level st sigs w :
  LIBOQS_AVAILABLE st = true →
  get_enabled_sig_mechanisms (world st) = (Return sigs, w) →
  level ∉ supported_levels f →
  ∃ msg, init f level st = (Raise (ValueError msg), set_world w st).
Proof.
  intros Ha Hs Hl.
  assert (Hne : ∀ k, k ∈ supported_levels f → k ≠ level)
    by (intros k Hk ->; exact (Hl Hk)).
  destruct f; eexists; simpl;
    [unfold DilithiumSignature.init, DilithiumSignature.dilithium_variants
    | unfold SPHINCSSignature.init, SPHINCSSignature.sphincs_variants];
    rewrite Ha, Hs; simpl; rewrite Ha; simpl;
    (rewrite !lookup_insert_ne by (apply Hne; simpl; set_solver));
    (rewrite lookup_singleton_ne by (apply Hne; simpl; set_solver));
    reflexivity.
Qed.

(** C1, at the inputs where the code departs from it: with the flag down,
    [DilithiumSignature(4)] and [SPHINCSSignature(2)] return an object and
    raise nothing. *)
Theorem init_unsupported_level_degraded
    (dilithium sphincs : gmap bytes bytes) (w : World) :
  let st := {| LIBOQS_AVAILABLE := false;
               Dilithium_mock_keypairs := dilithium;
               SPHINCS_mock_keypairs := sphincs;
               world := w |} in
  init Dilithium 4 st
  = (Return {| security_level := 4; signer := None;
               variant := None; enabled_sigs := [] |}, st) ∧
  init SPHINCS 2 st
  = (Return {| security_level := 2; signer := None;
               variant := None; enabled_sigs := [] |}, st).
Proof. split; reflexivity. Qed.
End Construction.

(** ** The deterministic mock engine *)

Section MockEngine.
Context {oqs : Backend}.
Implicit Types (st : State) (self : Instance) (f : Family).

(** C2: in mock mode, a key pair returned by one [generate_keypair] call
    signs and verifies: [verify(public_key, m, sign(private_key, m))] is
    [True], for either family and every message. *)
Theorem mock_sign_then_verify f env self st (m : bytes) n1 n2 n3 :
  mock_mode self st = true →
  ∃ public_key private_key st1 signature st2,
    generate_keypair f (S n1) env self st
      = Some ((public_key, private_key), st1) ∧
    sign f (S n2) self private_key m st1 = Some (signature, st2) ∧
    verify f (S n3) self public_key m signature st2 = Some (true, st2).
Proof.
  intros Hm.
  pose proof (mock_generate_keypair_state f env self st) as Hs.
  destruct (mock_generate_keypair f env self st) as [[pk sk] st1] eqn:Hg.
  destruct Hs as (Hr & _ & Hf & _ & _ & Hlen).
  assert (Hm1 : mock_mode self st1 = true)
    by (now rewrite (mock_mode_same_flag self st st1 Hf)).
  exists pk, sk, st1, (mock_sign f sk m), st1.
  rewrite generate_keypair_mock, sign_mock, verify_mock by assumption.
  rewrite Hg. repeat split.
  rewrite (mock_verify_hit f pk sk).
  - now rewrite bool_decide_eq_true_2.
  - rewrite Hr. apply lookup_insert_eq.
  - now apply (truthy_length _ 31).
Qed.

(** C5: in mock mode, for a public key that is not in the family's
    registry, [verify] answers whether the signature has the family's mock
    length (32 for Dilithium, 48 for SPHINCS+), whatever its content and
    whatever the message. *)
Theorem verify_registry_miss f self st (public_key m signature : bytes) n :
  mock_mode self st = true →
  mock_keypairs f st !! public_key = None →
  verify f (S n) self public_key m signature st
  = Some (bool_decide (length signature
                       = match f with Dilithium => 32 | SPHINCS => 48 end)%nat,
          st).
Proof.
  intros Hm Hl. rewrite verify_mock by exact Hm.
  rewrite mock_verify_miss by exact Hl. now destruct f.
Qed.

(** C6: in mock mode [generate_keypair] returns
    [private_key = SHA-256("{family}-{level}-private-{node_id}")] and
    [public_key = SHA-256("{family}-{level}-public-{private_key.hex()}")],
    32 bytes each; mock [sign] is HMAC-SHA256 keyed by the private key
    (32 bytes) for Dilithium and SHA-384 of private key followed by message
    (48 bytes) for SPHINCS+. *)
Theorem mock_engine_formulas f env self st (key m : bytes) n :
  mock_mode self st = true →
  let private_key :=
    hashlib.sha256 (encode (family_name f +:+ "-"
                            +:+ str_int (security_level self)
                            +:+ "-private-" +:+ get_node_id env)) in
  let public_key :=
    hashlib.sha256 (encode (family_name f +:+ "-"
                            +:+ str_int (security_level self)
                            +:+ "-public-" +:+ hex private_key)) in
  (∃ st', generate_keypair f (S n) env self st
          = Some ((public_key, private_key), st')) ∧
  length private_key = 32%nat ∧ length public_key = 32%nat ∧
  sign f (S n) self key m st
  = Some (match f with
          | Dilithium => hmac.new_sha256_digest key m
          | SPHINCS => SHA2.hash SHA2.sha384_params (key ++ m)
          end, st) ∧
  length (hmac.new_sha256_digest key m) = 32%nat ∧
  length (SHA2.hash SHA2.sha384_params (key ++ m)) = 48%nat.
Proof.
  intros Hm sk pk.
  rewrite generate_keypair_mock, sign_mock by exact Hm.
  split; [destruct f; eexists; reflexivity |].
  split; [apply sha256_length |]. split; [apply sha256_length |].
  split; [now destruct f |].
  split; [apply hmac_length |].
  apply (sha384_digest_length {| hashlib.fed := key ++ m |}).
Qed.

(** C7: in mock mode, for a public key the registry holds, [verify] is
    [True] exactly when the signature equals the one recomputed from the
    registered private key; so a signature returned by [sign] with one bit
    flipped is rejected. *)
Theorem verify_registry_hit f self st (public_key private_key m : bytes) n :
  reachable st →
  mock_mode self st = true →
  mock_keypairs f st !! public_key = Some private_key →
  (∀ signature,
     verify f (S n) self public_key m signature st
     = Some (bool_decide (signature = mock_sign f private_key m), st)) ∧
  (∀ valid st' i,
     sign f (S n) self private_key m st = Some (valid, st') →
     (i < 8 * length valid)%nat →
     verify f (S n) self public_key m (flip_bit i valid) st'
     = Some (false, st')).
Proof.
  intros Hreach Hm Hl.
  assert (Hhit : ∀ signature,
    verify f (S n) self public_key m signature st
    = Some (bool_decide (signature = mock_sign f private_key m), st)).
  { intros signature. rewrite verify_mock by exact Hm.
    rewrite (mock_verify_hit f public_key private_key); [reflexivity | exact Hl |].
    apply (truthy_length _ 31).
    exact (reachable_registry_wf st Hreach f _ _ Hl). }
  split; [exact Hhit |].
  intros valid st' i Hs Hi. rewrite sign_mock in Hs by exact Hm.
  injection Hs as <- <-. rewrite Hhit.
  now rewrite bool_decide_eq_false_2 by (now apply flip_bit_ne).
Qed.

(** C10: the registry belongs to the class, not to the object, and records
    no security level: once any object of a family has generated a mock key
    pair, [verify] on any object of that family in mock mode, whatever its
    security level, recomputes the signature from the registered private
    key. *)
Theorem registry_shared_by_instances
    f env self st (public_key private_key : bytes) st1 n1 :
  mock_mode self st = true →
  generate_keypair f (S n1) env self st
    = Some ((public_key, private_key), st1) →
  ∀ other (m signature : bytes) n2,
    mock_mode other st1 = true →
    verify f (S n2) other public_key m signature st1
    = Some (bool_decide (signature = mock_sign f private_key m), st1).
Proof.
  intros Hm Hg other m signature n2 Hother.
  rewrite generate_keypair_mock in Hg by exact Hm. injection Hg as Hg.
  pose proof (mock_generate_keypair_state f env self st) as Hs.
  rewrite Hg in Hs. destruct Hs as (Hr & _ & _ & _ & _ & Hlen).
  rewrite verify_mock by exact Hother.
  rewrite (mock_verify_hit f public_key private_key); [reflexivity | |].
  - rewrite Hr. apply lookup_insert_eq.
  - now apply (truthy_length _ 31).
Qed.
End MockEngine.

(** ** The one-way downgrade *)

Section Degrade.
Context {oqs : Backend}.
Implicit Types (st : State) (self : Instance) (f : Family).

(** C3: the flag never goes back up. After any sequence of constructions
    and [generate_keypair]/[sign]/[verify] calls from a state where it is
    [False], it is still [False], and every operation on every object of
    both families takes its mock branch there: the constructor returns at
    once, the three methods return what the mock engine computes at the
    first invocation, and the backend's world is left as it was. *)
Theorem degrade_is_permanent st st' :
  rtc step st st' →
  LIBOQS_AVAILABLE st = false →
  LIBOQS_AVAILABLE st' = false ∧
  ∀ f self env level (public_key private_key m signature : bytes) n,
    init f level st'
      = (Return {| security_level := level; signer := None;
                   variant := None; enabled_sigs := [] |}, st') ∧
    generate_keypair f (S n) env self st'
      = Some (mock_generate_keypair f env self st') ∧
    world (mock_generate_keypair f env self st').2 = world st' ∧
    LIBOQS_AVAILABLE (mock_generate_keypair f env self st').2 = false ∧
    sign f (S n) self private_key m st'
      = Some (mock_sign f private_key m, st') ∧
    verify f (S n) self public_key m signature st'
      = Some (mock_verify f public_key m signature st', st').
Proof.
  intros Hsteps Hdown.
  assert (Hdown' : LIBOQS_AVAILABLE st' = false)
    by exact (steps_flag st st' Hsteps Hdown).
  split; [exact Hdown' |].
  intros f self env level pk sk m sig n.
  pose proof (mock_mode_flag self st' Hdown') as Hm.
  split; [now apply init_mock |].
  split; [now apply generate_keypair_mock |].
  pose proof (mock_generate_keypair_state f env self st') as Hs.
  destruct (mock_generate_keypair f env self st') as [[pk' sk'] st1].
  destruct Hs as (_ & _ & Hf & Hw & _).
  split; [exact Hw |].
  split; [simpl; congruence |].
  split; [now apply sign_mock | now apply verify_mock].
Qed.

(** C4: every call returns within two nested invocations and hands the
    caller a value, never the backend's exception.  When the [try] block of
    a method raises, one invocation is not enough, and the second one,
    entered with the flag down, returns the mock result. *)
Theorem retry_at_most_once
    f env self st (public_key private_key m signature : bytes) n :
  (is_Some (generate_keypair f (S (S n)) env self st) ∧
   is_Some (sign f (S (S n)) self private_key m st) ∧
   is_Some (verify f (S (S n)) self public_key m signature st)) ∧
  ∀ h e w,
    LIBOQS_AVAILABLE st = true → signer self = Some h →
    LIBOQS_AVAILABLE (degraded w st) = false ∧
    (try_generate_keypair h (world st) = (Raise e, w) →
       generate_keypair f 1 env self st = None ∧
       generate_keypair f (S (S n)) env self st
       = Some (mock_generate_keypair f env self (degraded w st))) ∧
    (try_sign self private_key m (world st) = (Raise e, w) →
       sign f 1 self private_key m st = None ∧
       sign f (S (S n)) self private_key m st
       = Some (mock_sign f private_key m, degraded w st)) ∧
    (try_verify self public_key m signature (world st) = (Raise e, w) →
       verify f 1 self public_key m signature st = None ∧
       verify f (S (S n)) self public_key m signature st
       = Some (mock_verify f public_key m signature (degraded w st),
               degraded w st)).
Proof.
  assert (Hdeg : ∀ w, mock_mode self (degraded w st) = true)
    by (intros w; now apply mock_mode_flag).
  split.
  - destruct (mock_mode self st) eqn:Hm.
    + rewrite generate_keypair_mock, sign_mock, verify_mock by exact Hm.
      repeat split; eauto.
    + apply not_mock_mode in Hm as [Ha [h Hh]].
      rewrite (generate_keypair_real _ _ _ _ _ h Ha Hh),
              (sign_real _ _ _ _ _ _ h Ha Hh),
              (verify_real _ _ _ _ _ _ _ h Ha Hh).
      repeat split.
      * destruct (try_generate_keypair h (world st)) as [[r | e] w];
          [eauto | rewrite generate_keypair_mock by apply Hdeg; eauto].
      * destruct (try_sign self private_key m (world st)) as [[r | e] w];
          [eauto | rewrite sign_mock by apply Hdeg; eauto].
      * destruct (try_verify self public_key m signature (world st))
          as [[r | e] w];
          [eauto | rewrite verify_mock by apply Hdeg; eauto].
  - intros h e w Ha Hh. split; [reflexivity |].
    rewrite !(generate_keypair_real _ _ _ _ _ h Ha Hh),
            !(sign_real _ _ _ _ _ _ h Ha Hh),
            !(verify_real _ _ _ _ _ _ _ h Ha Hh).
    split; [| split]; intros ->;
      [split; [apply generate_keypair_0 | now apply generate_keypair_mock]
      | split; [apply sign_0 | now apply sign_mock]
      | split; [apply verify_0 | now apply verify_mock]].
Qed.

(** C9: only [generate_keypair] writes to a registry, and only to its own
    family's: it leaves it alone (backend branch) or writes the one entry
    from the returned public key to the returned private key (always so in
    mock mode).  The constructor, [sign] and [verify] leave both registries
    as they were, nothing removes an entry, and over any sequence of calls
    the set of registered public keys only grows. *)
Theorem registry_frame :
  (∀ f level st r st',
     init f level st = (r, st') → same_registries st st') ∧
  (∀ f depth self private_key m st signature st',
     sign f depth self private_key m st = Some (signature, st') →
     same_registries st st') ∧
  (∀ f depth self public_key m signature st r st',
     verify f depth self public_key m signature st = Some (r, st') →
     same_registries st st') ∧
  (∀ f depth env self st public_key private_key st',
     generate_keypair f depth env self st
       = Some ((public_key, private_key), st') →
     (∀ g, g ≠ f → mock_keypairs g st' = mock_keypairs g st) ∧
     (mock_keypairs f st' = mock_keypairs f st ∨
      mock_keypairs f st'
      = <[public_key := private_key]> (mock_keypairs f st)) ∧
     (mock_mode self st = true →
      mock_keypairs f st'
      = <[public_key := private_key]> (mock_keypairs f st))) ∧
  (∀ f st st',
     rtc step st st' →
     dom (mock_keypairs f st) ⊆ dom (mock_keypairs f st')).
Proof.
  split; [intros f level st r st' H; now apply init_effect in H |].
  split; [intros f depth self sk m st sig st' H;
          now apply sign_effect in H |].
  split; [intros f depth self pk m sig st r st' H;
          now apply verify_effect in H |].
  split; [| intros f st st'; apply steps_dom].
  intros f depth env self st pk sk st' H.
  pose proof (generate_keypair_effect _ _ _ _ _ _ _ H) as (_ & Hg & Hr).
  split; [exact Hg |]. split; [simpl in Hr; tauto |].
  intros Hm. destruct depth as [| depth].
  { now rewrite generate_keypair_0 in H. }
  rewrite generate_keypair_mock in H by exact Hm. injection H as H.
  pose proof (mock_generate_keypair_state f env self st) as Hs.
  rewrite H in Hs. tauto.
Qed.
End Degrade.

(** ** Determinism of the mock engine *)

(** C8: mock operations are functions of their visible inputs.  Two objects
    of one family with the same security level, possibly in two processes
    with different backends, registries and environments but the same node
    identity, return the same key pair; mock [sign] returns the same
    signature for the same private key and message; and neither touches the
    backend's world, the only source of randomness. *)
Theorem mock_is_deterministic
    (oqs1 oqs2 : Backend) f env1 env2
    (self1 : @Instance oqs1) (self2 : @Instance oqs2)
    (st1 : @State oqs1) (st2 : @State oqs2)
    (private_key m : bytes) n1 n2 :
  mock_mode self1 st1 = true →
  mock_mode self2 st2 = true →
  security_level self1 = security_level self2 →
  get_node_id env1 = get_node_id env2 →
  (∃ keys st1' st2',
     generate_keypair f (S n1) env1 self1 st1 = Some (keys, st1') ∧
     generate_keypair f (S n2) env2 self2 st2 = Some (keys, st2') ∧
     world st1' = world st1 ∧ world st2' = world st2) ∧
  (∃ signature,
     sign f (S n1) self1 private_key m st1 = Some (signature, st1) ∧
     sign f (S n2) self2 private_key m st2 = Some (signature, st2)).
Proof.
  intros Hm1 Hm2 Hlevel Hnode.
  rewrite !generate_keypair_mock, !sign_mock by assumption.
  split; [| eexists; split; reflexivity].
  destruct f; simpl;
    [unfold DilithiumSignature.mock_generate_keypair
    | unfold SPHINCSSignature.mock_generate_keypair];
    rewrite Hlevel, Hnode; eexists _, _, _; repeat split.
Qed.

(** ** Test vectors for the primitives *)

Example sha256_abc :
  hex (hashlib.sha256 (encode "abc"))
  = "ba7816bf8f01cfea414140de5dae2223b00361a396177a9cb410ff61f20015ad"%string.
Proof. vm_compute. reflexivity. Qed.

Example sha256_two_blocks :
  hex (hashlib.sha256
         (encode "abcdbcdecdefdefgefghfghighijhijkijkljklmklmnlmnomnopnopq"))
  = "248d6a61d20638b8e5c026930c3e6039a33ce45964ff2167f6ecedd419db06c1"%string.
Proof. vm_compute. reflexivity. Qed.

Example sha384_abc :
  hex (hashlib.digest (hashlib.update hashlib.sha384 (encode "abc")))
  = ("cb00753f45a35e8bb5a03d699ac65007272c32ab0eded163"
     +:+ "1a8b605a43ff5bed8086072ba1e7cc2358baeca134c825a7")%string.
Proof. vm_compute. reflexivity. Qed.

Example hmac_sha256_rfc4231_1 :
  hex (hmac.new_sha256_digest (repeat x0b 20) (encode "Hi There"))
  = "b0344c61d8db38535ca8afceaf0bf12b881dc200c9833da726e9376c2e32cff7"%string.
Proof. vm_compute. reflexivity. Qed.

Example hmac_sha256_rfc4231_long_key :
  hex (hmac.new_sha256_digest (repeat xaa 131)
         (encode "Test Using Larger Than Block-Size Key - Hash Key First"))
  = "60e431591ee0b67f0d8a26aacbf5b77f8e0bc6213728c5140546040f0ee37f54"%string.
Proof. vm_compute. reflexivity. Qed.

Example str_int_samples :
  (str_int 0, str_int 3, str_int (-12)) = ("0", "3", "-12")%string.
Proof. reflexivity. Qed.

Example get_node_id_samples :
  (get_node_id env_node1, get_node_id env_thread7) = ("node-1", "7")%string.
Proof. reflexivity. Qed.

(** ** Concrete runs *)

(** The mock key pair of node [node-1] at Dilithium level 3. *)
Example absent_keys_hex :
  (hex absent_keys.1, hex absent_keys.2)
  = ("cce39eb591d132292a9e89f2f4a52237e2ff598516bf6c0e3bda361c8853cb07",
     "d6255baa2a8646ce8d1ef3feaf60ee316a497ce7f26d9ceb86663cf8d6291aa2")%string.
Proof. vm_compute. reflexivity. Qed.

(** Sign [hello], verify [hello] and [hallo], for both families. *)
Example hello_hallo f :
  match generate_keypair f 1 env_node1 (mock_instance 3) absent_state with
  | Some ((pk, sk), st1) =>
      match sign f 1 (mock_instance 3) sk (encode "hello") st1 with
      | Some (sig, st2) =>
          (fst <$> verify f 1 (mock_instance 3) pk (encode "hello") sig st2,
           fst <$> verify f 1 (mock_instance 3) pk (encode "hallo") sig st2)
      | None => (None, None)
      end
  | None => (None, None)
  end = (Some true, Some false).
Proof. destruct f; vm_compute; reflexivity. Qed.

(** The preferred mechanism name wins; the legacy one is the fallback. *)
Example init_prefers_new_name :
  init Dilithium 3 (flaky_state 2) = (Return flaky_dilithium3, flaky_state 0).
Proof. vm_compute. reflexivity. Qed.

Example init_falls_back_to_old_name :
  (λ r, variant <$> match r with Return self => Some self | Raise _ => None end)
    (init Dilithium 2 (flaky_state 2)).1
  = Some (Some "Dilithium2"%string).
Proof. vm_compute. reflexivity. Qed.

(** No mechanism for the level: the object is built and the flag goes down. *)
Example init_without_variant :
  init Dilithium 5 (flaky_state 2)
  = (Return (set_enabled_sigs (enabled_sigs flaky_dilithium3) (mock_instance 5)),
     set_LIBOQS_AVAILABLE false (flaky_state 1)).
Proof. vm_compute. reflexivity. Qed.

(** With the library listed, level 4 is refused. *)
Example init_level_4_available :
  init Dilithium 4 (flaky_state 2)
  = (Raise (ValueError "Invalid security level: 4. Must be 2, 3, or 5."),
     flaky_state 1).
Proof. vm_compute. reflexivity. Qed.

(** Level 4 is accepted as soon as listing the mechanisms fails, and the
    object then generates keys seeded with [dilithium-4-]. *)
Example init_level_4_listing_fails :
  init Dilithium 4 (flaky_state 0)
  = (Return (mock_instance 4), set_LIBOQS_AVAILABLE false (flaky_state 0)).
Proof. vm_compute. reflexivity. Qed.

Example level_4_keys :
  (λ r, hex r.1.1) <$>
    generate_keypair Dilithium 1 env_node1 (mock_instance 4) absent_state
  = Some "fb10247d207b37004085a0e1b1a6f2ce55644f2610641e8f5abaf298b22a66a2"%string.
Proof. vm_compute. reflexivity. Qed.

(** ** The theorems at concrete inputs *)

Lemma absent_state1_reachable : @reachable absent_oqs absent_state1.
Proof.
  exists false, tt. apply rtc_once.
  apply (step_generate_keypair Dilithium 1 env_node1 (mock_instance 3)
           absent_state absent_keys absent_state1).
  reflexivity.
Defined.

Lemma mock_sign_then_verify_witness :
  mock_mode (mock_instance 3) absent_state = true ∧
  ∃ public_key private_key st1 signature st2,
    generate_keypair SPHINCS 1 env_node1 (mock_instance 3) absent_state
      = Some ((public_key, private_key), st1) ∧
    sign SPHINCS 1 (mock_instance 3) private_key (encode "hello") st1
      = Some (signature, st2) ∧
    verify SPHINCS 1 (mock_instance 3) public_key (encode "hello") signature st2
      = Some (true, st2).
Proof.
  split; [reflexivity |].
  apply (mock_sign_then_verify SPHINCS env_node1 (mock_instance 3)
           absent_state (encode "hello") 0 0 0).
  reflexivity.
Defined.

Lemma degrade_is_permanent_witness :
  rtc step flaky_degraded flaky_degraded1 ∧
  LIBOQS_AVAILABLE flaky_degraded = false ∧
  LIBOQS_AVAILABLE flaky_degraded1 = false ∧
  sign Dilithium 1 flaky_dilithium3 [x01] [x02] flaky_degraded1
  = Some (mock_sign Dilithium [x01] [x02], flaky_degraded1).
Proof.
  assert (Hsteps : rtc step flaky_degraded flaky_degraded1).
  { apply rtc_once.
    apply (step_generate_keypair Dilithium 1 env_node1 flaky_dilithium3
             flaky_degraded
             (@DilithiumSignature.mock_generate_keypair flaky_oqs
                env_node1 flaky_dilithium3 flaky_degraded).1
             flaky_degraded1).
    reflexivity. }
  split; [exact Hsteps |]. split; [reflexivity |].
  destruct (degrade_is_permanent flaky_degraded flaky_degraded1 Hsteps eq_refl)
    as [Hflag Hops].
  split; [exact Hflag |].
  destruct (Hops Dilithium flaky_dilithium3 env_node1 5 [] [x01] [x02] [] 0%nat)
    as (_ & _ & _ & _ & Hsign & _).
  exact Hsign.
Defined.

Lemma retry_at_most_once_witness :
  LIBOQS_AVAILABLE (flaky_state 1) = true ∧
  signer flaky_dilithium3 = Some ("ML-DSA-65"%string : @Handle flaky_oqs) ∧
  try_sign flaky_dilithium3 [x01] [x02] (world (flaky_state 1))
  = (Raise (BackendError "liboqs failure"), 0%nat) ∧
  sign Dilithium 1 flaky_dilithium3 [x01] [x02] (flaky_state 1) = None ∧
  sign Dilithium 2 flaky_dilithium3 [x01] [x02] (flaky_state 1)
  = Some (mock_sign Dilithium [x01] [x02], flaky_degraded).
Proof.
  split; [reflexivity |]. split; [reflexivity |]. split; [reflexivity |].
  destruct (retry_at_most_once Dilithium env_node1 flaky_dilithium3
              (flaky_state 1) [] [x01] [x02] [] 0) as [_ Hretry].
  destruct (Hretry ("ML-DSA-65"%string : @Handle flaky_oqs)
              (BackendError "liboqs failure") (0%nat : @World flaky_oqs)
              eq_refl eq_refl)
    as (_ & _ & Hsign & _).
  exact (Hsign eq_refl).
Defined.

Lemma verify_registry_miss_witness :
  mock_mode (mock_instance 3) absent_state = true ∧
  mock_keypairs SPHINCS absent_state !! [x01; x02] = None ∧
  verify SPHINCS 1 (mock_instance 3) [x01; x02] [x03] (repeat x00 48)
    absent_state
  = Some (bool_decide (length (repeat x00 48) = 48%nat), absent_state).
Proof.
  split; [reflexivity |]. split; [reflexivity |].
  apply (verify_registry_miss SPHINCS (mock_instance 3) absent_state
           [x01; x02] [x03] (repeat x00 48) 0); reflexivity.
Defined.

Lemma mock_engine_formulas_witness :
  mock_mode (mock_instance 3) absent_state = true ∧
  ∃ st',
    generate_keypair Dilithium 1 env_thread7 (mock_instance 3) absent_state
    = Some ((hashlib.sha256
               (encode ("dilithium-3-public-"
                        +:+ hex (hashlib.sha256
                                   (encode "dilithium-3-private-7")))),
             hashlib.sha256 (encode "dilithium-3-private-7")), st').
Proof.
  split; [reflexivity |].
  exact (proj1 (mock_engine_formulas Dilithium env_thread7 (mock_instance 3)
                  absent_state [] [] 0 eq_refl)).
Defined.

Lemma verify_registry_hit_witness :
  reachable absent_state1 ∧
  mock_mode (mock_instance 5) absent_state1 = true ∧
  mock_keypairs Dilithium absent_state1 !! absent_keys.1 = Some absent_keys.2 ∧
  ∀ signature,
    verify Dilithium 1 (mock_instance 5) absent_keys.1 [x68; x69] signature
      absent_state1
    = Some (bool_decide (signature = mock_sign Dilithium absent_keys.2 [x68; x69]),
            absent_state1).
Proof.
  assert (Hl : mock_keypairs Dilithium absent_state1 !! absent_keys.1
               = Some absent_keys.2) by (vm_compute; reflexivity).
  split; [exact absent_state1_reachable |]. split; [reflexivity |].
  split; [exact Hl |].
  exact (proj1 (verify_registry_hit Dilithium (mock_instance 5) absent_state1
                  absent_keys.1 absent_keys.2 [x68; x69] 0
                  absent_state1_reachable eq_refl Hl)).
Defined.

Lemma mock_is_deterministic_witness :
  mock_mode (mock_instance 3) absent_state = true ∧
  mock_mode flaky_dilithium3 (set_LIBOQS_AVAILABLE false (flaky_state 4)) = true ∧
  security_level (@mock_instance absent_oqs 3) = security_level flaky_dilithium3 ∧
  get_node_id env_thread7 = get_node_id env_node7 ∧
  ∃ keys st1' st2',
    generate_keypair Dilithium 1 env_thread7 (mock_instance 3) absent_state
    = Some (keys, st1') ∧
    generate_keypair Dilithium 3 env_node7 flaky_dilithium3
      (set_LIBOQS_AVAILABLE false (flaky_state 4))
    = Some (keys, st2') ∧
    world st1' = tt ∧ world st2' = 4%nat.
Proof.
  split; [reflexivity |]. split; [reflexivity |]. split; [reflexivity |].
  split; [reflexivity |].
  exact (proj1 (mock_is_deterministic absent_oqs flaky_oqs Dilithium
                  env_thread7 env_node7 (mock_instance 3) flaky_dilithium3
                  absent_state (set_LIBOQS_AVAILABLE false (flaky_state 4))
                  [] [] 0 2 eq_refl eq_refl eq_refl eq_refl)).
Defined.

Lemma registry_frame_witness :
  generate_keypair Dilithium 1 env_node1 (mock_instance 3) absent_state
  = Some (absent_keys, absent_state1) ∧
  mock_keypairs SPHINCS absent_state1 = mock_keypairs SPHINCS absent_state ∧
  mock_keypairs Dilithium absent_state1
  = <[absent_keys.1 := absent_keys.2]> (mock_keypairs Dilithium absent_state).
Proof.
  split; [reflexivity |].
  destruct (@registry_frame absent_oqs) as (_ & _ & _ & Hgen & _).
  destruct (Hgen Dilithium 1%nat env_node1 (mock_instance 3) absent_state
              absent_keys.1 absent_keys.2 absent_state1 eq_refl)
    as (Hother & _ & Hmock).
  split; [now apply Hother | now apply Hmock].
Defined.

Lemma registry_shared_by_instances_witness :
  mock_mode (mock_instance 3) absent_state = true ∧
  generate_keypair Dilithium 1 env_node1 (mock_instance 3) absent_state
  = Some ((absent_keys.1, absent_keys.2), absent_state1) ∧
  mock_mode (mock_instance 5) absent_state1 = true ∧
  verify Dilithium 1 (mock_instance 5) absent_keys.1 [x68; x69]
    (mock_sign Dilithium absent_keys.2 [x68; x69]) absent_state1
  = Some (bool_decide (mock_sign Dilithium absent_keys.2 [x68; x69]
                       = mock_sign Dilithium absent_keys.2 [x68; x69]),
          absent_state1).
Proof.
  split; [reflexivity |]. split; [reflexivity |]. split; [reflexivity |].
  apply (registry_shared_by_instances Dilithium env_node1 (mock_instance 3)
           absent_state absent_keys.1 absent_keys.2 absent_state1 0
           eq_refl eq_refl (mock_instance 5)).
  reflexivity.
Defined.

(** * Further properties of the module and of the code that reads it *)

(** ** Decimal numerals and the seeds *)

Lemma string_of_uint_digits d : all_digits (NilEmpty.string_of_uint d) = true.
Proof. induction d; simpl; auto. Qed.

(** [str(n)] is an optional minus sign followed by at least one digit. *)
Lemma str_int_shape z :
  ∃ c d, is_digit c = true ∧ all_digits d = true ∧
         (str_int z = String c d ∨ str_int z = String "-" (String c d)).
Proof.
  assert (Hu : ∀ u, ∃ c d, is_digit c = true ∧ all_digits d = true ∧
                          NilZero.string_of_uint u = String c d).
  { intros u. pose proof (string_of_uint_digits u) as Hd.
    destruct u; simpl in *;
      refine (ex_intro _ _ (ex_intro _ _ (conj _ (conj _ eq_refl))));
      first [reflexivity | exact Hd]. }
  unfold str_int. destruct (Z.to_int z) as [u | u]; simpl;
    destruct (Hu u) as (c & d & Hc & Hd & ->); eauto 8.
Qed.

Lemma str_int_inj a b : str_int a = str_int b → a = b.
Proof.
  unfold str_int. intros H.
  apply DecimalZ.to_int_inj.
  assert (Hn : ∀ z, Z.to_int z ≠ Decimal.Pos Decimal.Nil ∧
                    Z.to_int z ≠ Decimal.Neg Decimal.Nil).
  { intros [| p | p]; simpl; split; try discriminate;
      intros [= E]; now apply DecimalPos.Unsigned.to_uint_nonnil in E. }
  apply (f_equal NilZero.int_of_string) in H.
  rewrite !NilZero.isi in H by apply Hn. congruence.
Qed.

Lemma append_nil s : "" +:+ s = s.
Proof. reflexivity. Qed.

Lemma append_cons c a s : String c a +:+ s = String c (a +:+ s).
Proof. reflexivity. Qed.

Lemma digits_cancel a b r1 r2 :
  all_digits a = true → all_digits b = true →
  no_digit_ahead r1 → no_digit_ahead r2 →
  a +:+ r1 = b +:+ r2 → a = b ∧ r1 = r2.
Proof.
  revert b. induction a as [| c a IH]; intros [| c' b] Ha Hb H1 H2 H;
    simpl in *; rewrite ?append_nil, ?append_cons in H.
  - auto.
  - subst r1. simpl in H1. apply andb_true_iff in Hb as [Hc _]. congruence.
  - subst r2. simpl in H2. apply andb_true_iff in Ha as [Hc _]. congruence.
  - injection H as -> H.
    apply andb_true_iff in Ha as [_ Ha]. apply andb_true_iff in Hb as [_ Hb].
    destruct (IH b Ha Hb H1 H2 H) as [-> ->]. auto.
Qed.

(** A numeral followed by something that is not a digit can be read back. *)
Lemma numeral_cancel x y r1 r2 :
  no_digit_ahead r1 → no_digit_ahead r2 →
  str_int x +:+ r1 = str_int y +:+ r2 → x = y ∧ r1 = r2.
Proof.
  intros H1 H2 H.
  destruct (str_int_shape x) as (c & d & Hc & Hd & Hx).
  destruct (str_int_shape y) as (c' & d' & Hc' & Hd' & Hy).
  assert (Hcd : all_digits (String c d) = true) by (simpl; now rewrite Hc, Hd).
  assert (Hcd' : all_digits (String c' d') = true)
    by (simpl; now rewrite Hc', Hd').
  assert (Hminus : is_digit "-" = false) by reflexivity.
  assert (Hstr : str_int x = str_int y ∧ r1 = r2).
  { destruct Hx as [Hx | Hx], Hy as [Hy | Hy]; rewrite Hx, Hy in *.
    - destruct (digits_cancel _ _ _ _ Hcd Hcd' H1 H2 H) as [-> ->]. auto.
    - rewrite !append_cons in H. injection H as -> _. congruence.
    - rewrite !append_cons in H. injection H as <- _. congruence.
    - rewrite !append_cons in H. injection H as -> H.
      destruct (digits_cancel _ _ _ _ Hd Hd' H1 H2 H) as [-> ->]. auto. }
  destruct Hstr as [Hs ->]. split; [now apply str_int_inj | reflexivity].
Qed.


Lemma private_seed_eq f level node_id :
  private_seed f level node_id
  = match f with Dilithium => "dilithium-" | SPHINCS => "sphincs-" end
    +:+ (str_int level +:+ ("-private-" +:+ node_id)).
Proof. destruct f; reflexivity. Qed.

Lemma public_seed_eq f level private_key :
  public_seed f level private_key
  = match f with Dilithium => "dilithium-" | SPHINCS => "sphincs-" end
    +:+ (str_int level +:+ ("-public-" +:+ hex private_key)).
Proof. destruct f; reflexivity. Qed.

Lemma hex_digit_inj x y :
  0 ≤ x < 16 → 0 ≤ y < 16 → hex_digit x = hex_digit y → x = y.
Proof.
  intros Hx Hy H. unfold hex_digit in H.
  apply (f_equal nat_of_ascii) in H.
  rewrite !nat_ascii_embedding in H
    by (destruct (x <? 10), (y <? 10); lia).
  destruct (x <? 10) eqn:Ex, (y <? 10) eqn:Ey; lia.
Qed.

Lemma byte_to_Z_bounds b : 0 ≤ byte_to_Z b < 256.
Proof. unfold byte_to_Z. pose proof (Byte.to_N_bounded b). lia. Qed.

Lemma byte_to_Z_inj a b : byte_to_Z a = byte_to_Z b → a = b.
Proof.
  unfold byte_to_Z. intros H. apply N2Z.inj in H.
  apply (f_equal Byte.of_N) in H. rewrite !Byte.of_to_N in H. congruence.
Qed.

Lemma hex_cons b bs :
  hex (b :: bs)
  = String (hex_digit (Z.shiftr (byte_to_Z b) 4))
      (String (hex_digit (Z.land (byte_to_Z b) 15)) (hex bs)).
Proof. reflexivity. Qed.

Lemma hex_inj a b : hex a = hex b → a = b.
Proof.
  revert b. induction a as [| x a IH]; intros [| y b] H;
    rewrite ?hex_cons in H; try discriminate; [reflexivity |].
  injection H as Hhi Hlo H.
  pose proof (byte_to_Z_bounds x) as Bx. pose proof (byte_to_Z_bounds y) as By.
  change 15 with (Z.ones 4) in Hlo.
  rewrite !Z.land_ones in Hlo by lia. rewrite !Z.shiftr_div_pow2 in Hhi by lia.
  change (2 ^ 4) with 16 in *.
  apply hex_digit_inj in Hlo; [| apply Z.mod_pos_bound; lia ..].
  apply hex_digit_inj in Hhi;
    [| split; [apply Z.div_pos | apply Z.div_lt_upper_bound]; lia ..].
  f_equal; [| now apply IH].
  apply byte_to_Z_inj.
  rewrite (Z.div_mod (byte_to_Z x) 16), (Z.div_mod (byte_to_Z y) 16) by lia.
  congruence.
Qed.

Lemma encode_inj a b : encode a = encode b → a = b.
Proof.
  unfold encode. intros H. apply (f_equal string_of_list_byte) in H.
  now rewrite !string_of_list_byte_of_string in H.
Qed.

Lemma mock_generate_keypair_pair `{oqs : Backend} f env
    (self : Instance) (st : State) :
  (mock_generate_keypair f env self st).1
  = mock_pair f (security_level self) (get_node_id env).
Proof. destruct f; reflexivity. Qed.

Lemma seed_cancel f f' level level' r r' :
  no_digit_ahead r → no_digit_ahead r' →
  match f with Dilithium => "dilithium-" | SPHINCS => "sphincs-" end
    +:+ (str_int level +:+ r)
  = match f' with Dilithium => "dilithium-" | SPHINCS => "sphincs-" end
    +:+ (str_int level' +:+ r') →
  f = f' ∧ level = level' ∧ r = r'.
Proof.
  intros Hr Hr' H.
  destruct f, f'; simpl in H; rewrite !append_cons, !append_nil in H;
    try discriminate; simplify_eq;
    destruct (numeral_cancel _ _ _ _ Hr Hr' H) as [-> ->]; auto.
Qed.

Lemma seeds_inj f f' level level' (node_id node_id' : string) :
  encode (private_seed f level node_id)
  = encode (private_seed f' level' node_id') →
  f = f' ∧ level = level' ∧ node_id = node_id'.
Proof.
  intros H. apply encode_inj in H. rewrite !private_seed_eq in H.
  apply (seed_cancel _ _ _ _ ("-private-" +:+ _) ("-private-" +:+ _))
    in H as (-> & -> & H); [| reflexivity ..].
  rewrite !append_cons, !append_nil in H. now simplify_eq.
Qed.

(** X1: the strings hashed into mock keys are unambiguous.  [generate_keypair]
    in mock mode returns the pair derived from the two seeds, and two seeds
    are equal only when family, level and node identity (or private key)
    are; a private seed is never a public seed. *)
Theorem seeds_never_collide `{oqs : Backend} f f' level level'
    (node_id node_id' : string) (key key' : bytes) :
  (∀ env (self : Instance) (st : State) n,
     mock_mode self st = true →
     fst <$> generate_keypair f (S n) env self st
     = Some (mock_pair f (security_level self) (get_node_id env))) ∧
  (encode (private_seed f level node_id)
   = encode (private_seed f' level' node_id') →
   f = f' ∧ level = level' ∧ node_id = node_id') ∧
  (encode (public_seed f level key) = encode (public_seed f' level' key') →
   f = f' ∧ level = level' ∧ key = key') ∧
  encode (private_seed f level node_id) ≠ encode (public_seed f' level' key').
Proof.
  split.
  { intros env self st n Hm. rewrite generate_keypair_mock by exact Hm.
    simpl. now rewrite mock_generate_keypair_pair. }
  assert (Hnd : ∀ s, no_digit_ahead ("-" +:+ s)) by (intros s; reflexivity).
  split; [| split].
  - apply seeds_inj.
  - intros H. apply encode_inj in H. rewrite !public_seed_eq in H.
    apply (seed_cancel _ _ _ _ ("-public-" +:+ _) ("-public-" +:+ _))
      in H as (-> & -> & H); [| reflexivity ..].
    rewrite !append_cons, !append_nil in H. simplify_eq.
    repeat split. now apply hex_inj.
  - intros H. apply encode_inj in H.
    rewrite private_seed_eq, public_seed_eq in H.
    apply (seed_cancel _ _ _ _ ("-private-" +:+ _) ("-public-" +:+ _))
      in H as (_ & _ & H); [| reflexivity ..].
    rewrite !append_cons, !append_nil in H. discriminate.
Qed.

(** ** The constructor, case by case *)

Section Constructor.
Context {oqs : Backend}.
Implicit Types (st : State) (self : Instance) (f : Family).

Lemma variants_supported f level :
  (∃ names, variants f !! level = Some names) ↔ level ∈ supported_levels f.
Proof.
  split.
  - intros [names H]. destruct f; simpl in *;
      [unfold DilithiumSignature.dilithium_variants in H
      | unfold SPHINCSSignature.sphincs_variants in H];
      repeat (rewrite lookup_insert in H; case_decide; [subst; set_solver |]);
      apply lookup_singleton_Some in H as [<- _]; set_solver.
  - intros H. apply list_elem_of_In in H.
    destruct f; simpl in H; destruct H as [<- | [<- | [<- | []]]];
      eexists; reflexivity.
Qed.

Lemma variants_unsupported f level :
  variants f !! level = None ↔ level ∉ supported_levels f.
Proof.
  rewrite <- variants_supported. destruct (variants f !! level) as [names |].
  - split; [discriminate | intros H; destruct H; eauto].
  - split; [intros _ [? [=]] | reflexivity].
Qed.

Lemma init_unfold f level st :
  init f level st
  = let self := mock_instance level in
    let '(self, st) :=
      if LIBOQS_AVAILABLE st then
        match get_enabled_sig_mechanisms (world st) with
        | (Return sigs, w) => (set_enabled_sigs sigs self, set_world w st)
        | (Raise _, w) => (self, set_LIBOQS_AVAILABLE false (set_world w st))
        end
      else (self, st) in
    if negb (LIBOQS_AVAILABLE st) then (Return self, st)
    else
      match variants f !! level with
      | None => (Raise (ValueError (invalid_level_message f level)), st)
      | Some names =>
          match find (λ v, bool_decide (v ∈ enabled_sigs self)) names with
          | None => (Return self, set_LIBOQS_AVAILABLE false st)
          | Some v =>
              let self := set_variant (Some v) self in
              match Signature (variant self) None (world st) with
              | (Return h, w) =>
                  (Return (set_signer (Some h) self), set_world w st)
              | (Raise _, w) =>
                  (Return self, set_LIBOQS_AVAILABLE false (set_world w st))
              end
          end
      end.
Proof. destruct f; reflexivity. Qed.

(** The five ways through the constructor. *)
Lemma init_cases f level st :
  (LIBOQS_AVAILABLE st = false ∧
   init f level st = (Return (mock_instance level), st)) ∨
  (LIBOQS_AVAILABLE st = true ∧ ∃ e w,
     get_enabled_sig_mechanisms (world st) = (Raise e, w) ∧
     init f level st
     = (Return (mock_instance level),
        set_LIBOQS_AVAILABLE false (set_world w st))) ∨
  (LIBOQS_AVAILABLE st = true ∧ ∃ sigs w,
     get_enabled_sig_mechanisms (world st) = (Return sigs, w) ∧
     let self := set_enabled_sigs sigs (mock_instance level) in
     match variants f !! level with
     | None =>
         init f level st
         = (Raise (ValueError (invalid_level_message f level)), set_world w st)
     | Some names =>
         match find (λ v, bool_decide (v ∈ sigs)) names with
         | None =>
             init f level st
             = (Return self, set_LIBOQS_AVAILABLE false (set_world w st))
         | Some v =>
             match Signature (Some v) None w with
             | (Return h, w') =>
                 init f level st
                 = (Return (set_signer (Some h) (set_variant (Some v) self)),
                    set_world w' (set_world w st))
             | (Raise _, w') =>
                 init f level st
                 = (Return (set_variant (Some v) self),
                    set_LIBOQS_AVAILABLE false
                      (set_world w' (set_world w st)))
             end
         end
     end).
Proof.
  rewrite !init_unfold.
  destruct (LIBOQS_AVAILABLE st) eqn:Ha; simpl.
  2: { left. rewrite Ha. auto. }
  right. destruct (get_enabled_sig_mechanisms (world st))
    as [[sigs | e] w] eqn:Hl; simpl; rewrite ?Ha; simpl.
  2: { left. eauto. }
  right. split; [reflexivity |]. exists sigs, w. split; [reflexivity |].
  destruct (variants f !! level) as [names |]; [| reflexivity].
  destruct (find _ names) as [v |]; [| reflexivity].
  simpl. now destruct (Signature (Some v) None w) as [[h | e] w'].
Qed.

(** X2: the constructor raises exactly when the flag is up, the mechanisms
    could be listed and the level is not one of the class's three; what it
    raises is the [ValueError] with the class's message. *)
Theorem init_raises_iff f level st e :
  fst (init f level st) = Raise e ↔
  (LIBOQS_AVAILABLE st = true ∧
   (∃ sigs w, get_enabled_sig_mechanisms (world st) = (Return sigs, w)) ∧
   (level ∉ supported_levels f) ∧
   e = ValueError (invalid_level_message f level)).
Proof.
  rewrite <- variants_unsupported.
  destruct (init_cases f level st)
    as [[Ha ->] | [(Ha & e' & w & Hl & ->) | (Ha & sigs & w & Hl & H)]]; simpl.
  - split; [discriminate | intros [? _]; congruence].
  - split; [discriminate | intros (_ & (? & ? & ?) & _); congruence].
  - simpl in H. destruct (variants f !! level) as [names |] eqn:Hv.
    + split; [| intros (_ & _ & [=] & _)].
      destruct (find _ names) as [v |];
        [destruct (Signature (Some v) None w) as [[h | e''] w'] |];
        rewrite H; discriminate.
    + rewrite H. simpl. split.
      * intros [= <-]. eauto 8.
      * now intros (_ & _ & _ & ->).
Qed.

Lemma find_first {A} (p : A → bool) l v :
  find p l = Some v →
  ∃ l1 l2, l = l1 ++ v :: l2 ∧ p v = true ∧ ∀ x, x ∈ l1 → p x = false.
Proof.
  induction l as [| a l IH]; simpl; [discriminate |].
  destruct (p a) eqn:Hp.
  - intros [= ->]. exists [], l. repeat split; [done |]. intros x Hx.
    now apply elem_of_nil in Hx.
  - intros H. destruct (IH H) as (l1 & l2 & -> & Hv & Hl1).
    exists (a :: l1), l2. repeat split; [done |].
    intros x Hx. apply elem_of_cons in Hx as [-> | Hx]; auto.
Qed.

(** What the constructor returns, by the way it went. *)
Lemma init_returns f level st self st' :
  init f level st = (Return self, st') →
  security_level self = level ∧
  (signer self = None → LIBOQS_AVAILABLE st' = false) ∧
  (∀ h, signer self = Some h →
     LIBOQS_AVAILABLE st' = true ∧
     ∃ names v, variants f !! level = Some names ∧ variant self = Some v ∧
       find (λ x, bool_decide (x ∈ enabled_sigs self)) names = Some v).
Proof.
  destruct (init_cases f level st)
    as [[Ha ->] | [(Ha & e' & w & Hl & ->) | (Ha & sigs & w & Hl & H)]].
  - intros [= <- <-]. split; [reflexivity |]. split; [auto |]. intros h [=].
  - intros [= <- <-]. split; [reflexivity |]. split; [auto |]. intros h [=].
  - simpl in H. destruct (variants f !! level) as [names |] eqn:Hv;
      [| rewrite H; discriminate].
    destruct (find _ names) as [v |] eqn:Hfind;
      [destruct (Signature (Some v) None w) as [[h | e''] w'] |];
      rewrite H; intros [= <- <-]; simpl; (split; [reflexivity |]); split;
      try discriminate; try reflexivity; try (intros h' [=]; fail).
    intros h' [= <-]. split; [assumption |]. eauto.
Qed.

(** X3: an object the constructor returned is in mock mode exactly when the
    process flag is down, right away and after any further calls. *)
Theorem constructed_object_follows_flag f level st self st' st'' :
  init f level st = (Return self, st') →
  rtc step st' st'' →
  mock_mode self st'' = negb (LIBOQS_AVAILABLE st'').
Proof.
  intros Hinit Hsteps.
  destruct (init_returns _ _ _ _ _ Hinit) as (_ & Hnone & _).
  unfold mock_mode. destruct (signer self) as [h |].
  - now rewrite orb_false_r.
  - rewrite (steps_flag _ _ Hsteps (Hnone eq_refl)). reflexivity.
Qed.

(** X4: an object that got a backend signer has a level of its class, and
    its variant is the first name of that level's list that the backend
    enabled: a later name is used only when the earlier ones are missing. *)
Theorem init_resolves_first_enabled f level st self st' h :
  init f level st = (Return self, st') →
  signer self = Some h →
  LIBOQS_AVAILABLE st' = true ∧
  level ∈ supported_levels f ∧
  ∃ names earlier v later,
    variants f !! level = Some names ∧
    names = earlier ++ v :: later ∧
    variant self = Some v ∧
    v ∈ enabled_sigs self ∧
    ∀ x, x ∈ earlier → x ∉ enabled_sigs self.
Proof.
  intros Hinit Hh.
  destruct (init_returns _ _ _ _ _ Hinit) as (_ & _ & Hsome).
  destruct (Hsome h Hh) as (Ha & names & v & Hv & Hvar & Hfind).
  split; [exact Ha |]. split; [apply variants_supported; eauto |].
  destruct (find_first _ _ _ Hfind) as (l1 & l2 & -> & Hin & Hl1).
  exists (l1 ++ v :: l2), l1, v, l2. repeat split; try assumption.
  - now apply bool_decide_eq_true in Hin.
  - intros x Hx. specialize (Hl1 x Hx). now apply bool_decide_eq_false in Hl1.
Qed.

(** X5: building an object for a level none of whose mechanisms the backend
    enabled brings the flag down for the whole process: from then on every
    object of either family, also one holding a signer, signs and verifies
    through the mock engine. *)
Theorem failed_resolution_degrades_all f level st sigs w names :
  LIBOQS_AVAILABLE st = true →
  get_enabled_sig_mechanisms (world st) = (Return sigs, w) →
  variants f !! level = Some names →
  (∀ v, v ∈ names → v ∉ sigs) →
  let st' := set_LIBOQS_AVAILABLE false (set_world w st) in
  init f level st = (Return (set_enabled_sigs sigs (mock_instance level)), st') ∧
  ∀ g other (public_key private_key m signature : bytes) n,
    sign g (S n) other private_key m st'
    = Some (mock_sign g private_key m, st') ∧
    verify g (S n) other public_key m signature st'
    = Some (mock_verify g public_key m signature st', st').
Proof.
  intros Ha Hl Hv Hnone st'. split.
  - rewrite init_unfold, Ha, Hl. simpl. rewrite Ha. simpl. rewrite Hv.
    destruct (find _ names) as [v |] eqn:Hfind; [| reflexivity].
    apply find_some in Hfind as [Hin Hdec].
    apply bool_decide_eq_true in Hdec. apply list_elem_of_In in Hin.
    now destruct (Hnone v Hin).
  - intros g other pk sk m sig n.
    assert (Hm : mock_mode other st' = true) by now apply mock_mode_flag.
    now rewrite sign_mock, verify_mock by exact Hm.
Qed.
End Constructor.

(** ** The backend branch and the downgrade *)

Section BackendBranch.
Context {oqs : Backend}.
Implicit Types (st : State) (self : Instance) (f : Family).

Lemma flag_degraded w st : LIBOQS_AVAILABLE (degraded w st) = false.
Proof. reflexivity. Qed.

Lemma flag_set_world w st :
  LIBOQS_AVAILABLE (set_world w st) = LIBOQS_AVAILABLE st.
Proof. reflexivity. Qed.

Lemma mock_generate_keypair_flag f env self st :
  LIBOQS_AVAILABLE (mock_generate_keypair f env self st).2
  = LIBOQS_AVAILABLE st.
Proof. now destruct f. Qed.

(** X6: with the flag up, a call brings it down exactly when the object has
    a signer and the [try] block of the method raises.  A backend [verify]
    that answers [False] is only an answer: it is returned and the flag
    stays up. *)
Theorem downgrade_iff_backend_raises
    f env self st (public_key private_key m signature : bytes) n :
  LIBOQS_AVAILABLE st = true →
  (∀ keys st',
     generate_keypair f (S (S n)) env self st = Some (keys, st') →
     (LIBOQS_AVAILABLE st' = false ↔
      ∃ h e w, signer self = Some h ∧
               try_generate_keypair h (world st) = (Raise e, w))) ∧
  (∀ sig st',
     sign f (S (S n)) self private_key m st = Some (sig, st') →
     (LIBOQS_AVAILABLE st' = false ↔
      ∃ h e w, signer self = Some h ∧
               try_sign self private_key m (world st) = (Raise e, w))) ∧
  (∀ r st',
     verify f (S (S n)) self public_key m signature st = Some (r, st') →
     (LIBOQS_AVAILABLE st' = false ↔
      ∃ h e w, signer self = Some h ∧
               try_verify self public_key m signature (world st)
               = (Raise e, w))) ∧
  (∀ h r w,
     signer self = Some h →
     try_verify self public_key m signature (world st) = (Return r, w) →
     verify f (S n) self public_key m signature st
     = Some (r, set_world w st)).
Proof.
  intros Ha.
  destruct (mock_mode self st) eqn:Hm.
  - assert (Hs : signer self = None).
    { apply mock_mode_cases in Hm as [Hm | Hm]; congruence. }
    rewrite generate_keypair_mock, sign_mock, verify_mock by exact Hm.
    split; [| split; [| split]].
    + intros keys st' [= H]. apply (f_equal snd) in H. simpl in H. subst st'.
      rewrite mock_generate_keypair_flag, Ha.
      split; [discriminate | intros (h & e & w & Hh & _); congruence].
    + intros sig st' [= <- <-]. rewrite Ha.
      split; [discriminate | intros (h & e & w & Hh & _); congruence].
    + intros r st' [= <- <-]. rewrite Ha.
      split; [discriminate | intros (h & e & w & Hh & _); congruence].
    + intros h r w Hh. congruence.
  - apply not_mock_mode in Hm as [_ [h Hh]].
    rewrite (generate_keypair_real _ _ _ _ _ h Ha Hh),
            (sign_real _ _ _ _ _ _ h Ha Hh),
            (verify_real _ _ _ _ _ _ _ h Ha Hh).
    assert (Hdeg : ∀ w, mock_mode self (degraded w st) = true)
      by (intros w; now apply mock_mode_flag).
    split; [| split; [| split]].
    + intros keys st'.
      destruct (try_generate_keypair h (world st)) as [[r | e] w] eqn:Ht.
      * intros [= <- <-]. rewrite flag_set_world.
        split; [congruence |]. intros (h' & e & w' & Hh' & Hr).
        rewrite Hh in Hh'. injection Hh' as <-. congruence.
      * rewrite generate_keypair_mock by apply Hdeg. intros [= H].
        apply (f_equal snd) in H. simpl in H. subst st'.
        rewrite mock_generate_keypair_flag.
        split; [eauto 6 | reflexivity].
    + intros sig st'.
      destruct (try_sign self private_key m (world st)) as [[r | e] w] eqn:Ht.
      * intros [= <- <-]. rewrite flag_set_world.
        split; [congruence | intros (h' & e & w' & _ & [=])].
      * rewrite sign_mock by apply Hdeg. intros [= <- <-].
        split; [eauto 6 | reflexivity].
    + intros r' st'.
      destruct (try_verify self public_key m signature (world st))
        as [[r | e] w] eqn:Ht.
      * intros [= <- <-]. rewrite flag_set_world.
        split; [congruence | intros (h' & e & w' & _ & [=])].
      * rewrite verify_mock by apply Hdeg. intros [= <- <-].
        split; [eauto 6 | reflexivity].
    + intros h' r w _ Ht.
      now rewrite (verify_real _ _ _ _ _ _ _ h Ha Hh), Ht.
Qed.



(** X8: in mock mode [verify] accepts nothing but signatures of the family's
    length, on a registry hit as on a miss; so a mock signature of the
    other family is always rejected. *)
Theorem mock_verify_needs_family_length
    f self st (public_key m signature : bytes) n :
  reachable st →
  mock_mode self st = true →
  (∀ st', verify f (S n) self public_key m signature st = Some (true, st') →
          length signature = mock_signature_length f) ∧
  (∀ g (key m' : bytes),
     g ≠ f →
     verify f (S n) self public_key m (mock_sign g key m') st
     = Some (false, st)).
Proof.
  intros Hreach Hm.
  assert (Hlen : ∀ sig, mock_verify f public_key m sig st = true →
                        length sig = mock_signature_length f).
  { intros sig. destruct (mock_keypairs f st !! public_key) as [sk |] eqn:Hl.
    - rewrite (mock_verify_hit f public_key sk) by
        (try exact Hl; apply (truthy_length _ 31);
         exact (reachable_registry_wf st Hreach f _ _ Hl)).
      intros ->%bool_decide_eq_true. apply mock_sign_length.
    - rewrite mock_verify_miss by exact Hl. now intros ?%bool_decide_eq_true. }
  rewrite !verify_mock by exact Hm. split.
  - intros st' [= H _]. now apply Hlen.
  - intros g key m' Hne. rewrite verify_mock by exact Hm.
    destruct (mock_verify f public_key m (mock_sign g key m') st) eqn:Hv;
      [| reflexivity].
    apply Hlen in Hv. rewrite mock_sign_length in Hv.
    destruct f, g; simpl in Hv; congruence.
Qed.

Lemma mock_generate_keypair_eq f env self st :
  mock_generate_keypair f env self st
  = (mock_pair f (security_level self) (get_node_id env),
     match f with
     | Dilithium =>
         set_Dilithium_mock_keypairs
           (<[(mock_pair f (security_level self) (get_node_id env)).1 :=
               (mock_pair f (security_level self) (get_node_id env)).2]>
              (Dilithium_mock_keypairs st)) st
     | SPHINCS =>
         set_SPHINCS_mock_keypairs
           (<[(mock_pair f (security_level self) (get_node_id env)).1 :=
               (mock_pair f (security_level self) (get_node_id env)).2]>
              (SPHINCS_mock_keypairs st)) st
     end).
Proof. destruct f; reflexivity. Qed.

(** X9: generating again is idempotent in mock mode.  A second call, on the
    same object or on another of the same level, with the same node
    identity, returns the same pair and leaves the state as the first call
    left it. *)
Theorem mock_generate_keypair_idempotent
    f env env' self other st keys st1 n n' :
  mock_mode self st = true →
  mock_mode other st = true →
  security_level other = security_level self →
  get_node_id env' = get_node_id env →
  generate_keypair f (S n) env self st = Some (keys, st1) →
  generate_keypair f (S n') env' other st1 = Some (keys, st1).
Proof.
  intros Hm Hm' Hlevel Hnode.
  rewrite generate_keypair_mock by exact Hm.
  rewrite mock_generate_keypair_eq. intros [= <- <-].
  rewrite generate_keypair_mock
    by (destruct f; exact Hm').
  rewrite mock_generate_keypair_eq, Hlevel, Hnode.
  destruct f; simpl; unfold set_Dilithium_mock_keypairs,
    set_SPHINCS_mock_keypairs; simpl; now rewrite insert_insert_eq.
Qed.


Lemma generate_keypair_inserts f depth env self st keys st' :
  generate_keypair f depth env self st = Some (keys, st') →
  mock_keypairs f st' = mock_keypairs f st ∨
  (mock_keypairs f st' = <[keys.1 := keys.2]> (mock_keypairs f st) ∧
   keys = mock_pair f (security_level self) (get_node_id env)).
Proof.
  revert st. induction depth as [| depth IH]; intros st H.
  { now rewrite generate_keypair_0 in H. }
  destruct (mock_mode self st) eqn:Hm.
  - rewrite generate_keypair_mock in H by exact Hm. injection H as H.
    pose proof (mock_generate_keypair_state f env self st) as Hs.
    pose proof (mock_generate_keypair_pair f env self st) as Hp.
    rewrite H in Hs, Hp. simpl in Hp. destruct keys as [pk sk].
    right. split; [apply Hs | exact Hp].
  - apply not_mock_mode in Hm as [Ha [h Hh]].
    rewrite (generate_keypair_real _ _ _ _ _ h Ha Hh) in H.
    destruct (try_generate_keypair h (world st)) as [[keys' | e] w].
    + injection H as <- <-. left. apply mock_keypairs_set_world.
    + apply IH in H. now rewrite !mock_keypairs_degraded in H.
Qed.

Lemma step_registry_genuine st st' :
  step st st' → registry_genuine st → registry_genuine st'.
Proof.
  intros Hs Hgen g pk sk.
  destruct Hs as [f level st r st' H | f depth env self st keys st' H
                 | f depth self sk0 m st sig st' H
                 | f depth self pk0 m sig st r st' H].
  - apply init_effect in H as [_ Hr].
    rewrite (proj1 (same_registries_mock_keypairs _ _) Hr g). apply Hgen.
  - pose proof (generate_keypair_effect _ _ _ _ _ _ _ H) as (_ & Hother & _).
    destruct (decide (g = f)) as [-> | Hne]; [| rewrite Hother by exact Hne;
                                                apply Hgen].
    apply generate_keypair_inserts in H as [-> | [-> ->]]; [apply Hgen |].
    rewrite lookup_insert. case_decide as Hpk; [| apply Hgen].
    intros [= <-]. subst pk.
    exists (security_level self), (get_node_id env). reflexivity.
  - apply sign_effect in H as [_ Hr].
    rewrite (proj1 (same_registries_mock_keypairs _ _) Hr g). apply Hgen.
  - apply verify_effect in H as [_ Hr].
    rewrite (proj1 (same_registries_mock_keypairs _ _) Hr g). apply Hgen.
Qed.

Lemma reachable_registry_genuine st : reachable st → registry_genuine st.
Proof.
  intros (imported & w & Hsteps).
  assert (Hinit : registry_genuine (initial_state imported w))
    by (intros [] pk sk; simpl; rewrite lookup_empty; discriminate).
  revert Hinit. induction Hsteps as [| st0 st1 st2 Hs _ IH]; [auto |].
  intros Hg. apply IH, (step_registry_genuine _ _ Hs Hg).
Qed.

(** X11: the registries only ever hold pairs the mock engine derives.  In
    every state a process can reach, a registered public key is the SHA-256
    of the public seed built from the private key it is mapped to, and that
    private key is the SHA-256 of a private seed of the same family and
    level. *)
Theorem registry_entries_genuine st f (public_key private_key : bytes) :
  reachable st →
  mock_keypairs f st !! public_key = Some private_key →
  ∃ level node_id,
    private_key = hashlib.sha256 (encode (private_seed f level node_id)) ∧
    public_key = hashlib.sha256 (encode (public_seed f level private_key)).
Proof.
  intros Hreach Hl.
  destruct (reachable_registry_genuine st Hreach f _ _ Hl)
    as (level & node_id & Hp).
  exists level, node_id. unfold mock_pair in Hp. injection Hp as -> ->.
  split; reflexivity.
Qed.

(** X12: where the node identity comes from.  [NODE_ID] is used as it is,
    also when it is empty; without it two threads with different
    identifiers get different node identities, hence different private
    seeds for every family and level. *)
Theorem node_id_source env env' :
  (∀ v, NODE_ID env = Some v → get_node_id env = v) ∧
  (NODE_ID env = None → NODE_ID env' = None →
   get_ident env ≠ get_ident env' →
   get_node_id env ≠ get_node_id env' ∧
   ∀ f level,
     encode (private_seed f level (get_node_id env))
     ≠ encode (private_seed f level (get_node_id env'))).
Proof.
  unfold get_node_id. split; [now intros v -> |].
  intros -> -> Hne.
  assert (Hid : str_int (get_ident env) ≠ str_int (get_ident env'))
    by (intros H; now apply str_int_inj in H).
  split; [exact Hid |].
  intros f level H. apply Hid.
  now apply (seeds_inj f f level level) in H as (_ & _ & H).
Qed.
End BackendBranch.

(** ** The [name] property and its readers *)

Lemma name_eq `{oqs : Backend} f (self : Instance) (st : State) :
  name f self st
  = family_label f
    +:+ (" (Level "
         +:+ (str_int (security_level self)
              +:+ (if mock_mode self st then ") [Mock]" else ")"))).
Proof.
  unfold mock_mode.
  destruct f; simpl; [unfold DilithiumSignature.name
                     | unfold SPHINCSSignature.name];
    destruct (LIBOQS_AVAILABLE st), (signer self); reflexivity.
Qed.

Lemma name_eq_iff (oqs1 oqs2 : Backend) f g
    (self : @Instance oqs1) (other : @Instance oqs2)
    (st : @State oqs1) (st' : @State oqs2) :
  name f self st = name g other st' ↔
  f = g ∧ security_level self = security_level other ∧
  mock_mode self st = mock_mode other st'.
Proof.
  rewrite !name_eq. split.
  - intros H.
    assert (Hf : f = g ∧
                 str_int (security_level self)
                 +:+ (if mock_mode self st then ") [Mock]" else ")")
                 = str_int (security_level other)
                   +:+ (if mock_mode other st' then ") [Mock]" else ")")).
    { destruct f, g; simpl in H; rewrite !append_cons, !append_nil in H;
        try discriminate; simplify_eq; auto. }
    destruct Hf as [-> Hs]. split; [reflexivity |].
    assert (Hnd : ∀ b : bool,
              no_digit_ahead (if b then ") [Mock]" else ")"))
      by (intros []; reflexivity).
    destruct (numeral_cancel _ _ _ _ (Hnd _) (Hnd _) Hs) as [Hlevel Hmode].
    split; [exact Hlevel |].
    destruct (mock_mode self st), (mock_mode other st');
      (reflexivity || discriminate Hmode).
  - now intros (-> & -> & ->).
Qed.

(** X13: [name] tells family, security level and mode apart, and nothing
    else: two objects, in one process or in two, have the same name exactly
    when they are of the same class and level and both or neither in mock
    mode. *)
Theorem name_identifies (oqs1 oqs2 : Backend) f g
    (self : @Instance oqs1) (other : @Instance oqs2)
    (st : @State oqs1) (st' : @State oqs2) :
  name f self st = name g other st' ↔
  f = g ∧ security_level self = security_level other ∧
  mock_mode self st = mock_mode other st'.
Proof. apply name_eq_iff. Qed.

(** X14: the status line of the main window shows the first word of the
    name, and that word is the family's label whatever the level and the
    mode: the line reads the same before and after a downgrade. *)
Theorem signature_label_hides_mode `{oqs : Backend} f
    (self : Instance) (st : State) :
  signature_label (name f self st) = Some (family_label f).
Proof.
  rewrite name_eq. unfold signature_label, split.
  destruct f; simpl family_label; rewrite !append_cons; reflexivity.
Qed.

(** X15: the peer list compares names.  A connected peer that announced a
    signature name of another family, level or mode than the local object's
    is shown in orange as differing, whatever else it announced; a peer
    that announced none of the three settings is shown as compatible. *)
Theorem peer_status_follows_name (oqs1 oqs2 : Backend) f g
    (self : @Instance oqs1) (other : @Instance oqs2)
    (st : @State oqs1) (st' : @State oqs2)
    (sm : SecureMessaging) (node_id : string)
    (peer_settings : gmap string string) :
  peer_crypto_settings sm !! node_id = Some peer_settings →
  signature_name sm = name f self st →
  (peer_settings !! "signature"%string = Some (name g other st') →
   ¬ (f = g ∧ security_level self = security_level other ∧
      mock_mode self st = mock_mode other st') →
   connected_status (Some sm) node_id
   = (" [Connected, ⚠️ Settings differ]"%string, orange)) ∧
  (peer_settings !! "key_exchange"%string = None →
   peer_settings !! "symmetric"%string = None →
   peer_settings !! "signature"%string = None →
   connected_status (Some sm) node_id
   = (" [Connected, ✓ Compatible]"%string, green)).
Proof.
  intros Hpeer Hname. unfold connected_status. rewrite Hpeer.
  unfold has_mismatches. simpl existsb. split.
  - intros Hsig Hdiff. rewrite Hsig, Hname.
    rewrite (bool_decide_eq_false_2 (name g other st' = name f self st)).
    + simpl. rewrite !orb_true_r. reflexivity.
    + intros Heq. apply Hdiff. symmetry in Heq.
      now apply name_eq_iff in Heq.
  - intros -> -> ->. reflexivity.
Qed.

Section MockSign.
Context {oqs : Backend}.
Implicit Types (st : State) (self : Instance) (f : Family).

(** X16: the SPHINCS+ mock signature hashes key and message one after the
    other with nothing in between, so it only depends on their
    concatenation: bytes moved from the end of the key to the start of the
    message give the same signature. *)
Theorem sphincs_mock_sign_concatenation self st (key moved m : bytes) n :
  mock_mode self st = true →
  sign SPHINCS (S n) self (key ++ moved) m st
  = sign SPHINCS (S n) self key (moved ++ m) st.
Proof.
  intros Hm. rewrite !sign_mock by exact Hm. simpl.
  unfold SPHINCSSignature.mock_sign, hashlib.update. simpl.
  now rewrite <- app_assoc.
Qed.

(** X17: the Dilithium mock signature is an HMAC, and HMAC fills a key
    shorter than its 64-byte block with zero bytes: a private key and the
    same key followed by a zero byte sign alike. *)
Theorem dilithium_mock_sign_zero_padding self st (key m : bytes) n :
  mock_mode self st = true →
  (length key < 64)%nat →
  sign Dilithium (S n) self (key ++ [x00]) m st
  = sign Dilithium (S n) self key m st.
Proof.
  intros Hm Hlen. rewrite !sign_mock by exact Hm. simpl.
  unfold DilithiumSignature.mock_sign, hmac.new_sha256_digest.
  change (SHA2.block_bytes SHA2.sha256_params) with 64%nat.
  rewrite length_app. simpl length.
  destruct (64 <? length key + 1)%nat eqn:E1; [apply Nat.ltb_lt in E1; lia |].
  destruct (64 <? length key)%nat eqn:E2; [apply Nat.ltb_lt in E2; lia |].
  assert (Hk : (key ++ [x00]) ++ repeat x00 (64 - length (key ++ [x00]))
               = key ++ repeat x00 (64 - length key)).
  { rewrite length_app, <- app_assoc. simpl length. f_equal.
    replace (64 - length key)%nat with (S (64 - (length key + 1))) by lia.
    reflexivity. }
  now rewrite Hk.
Qed.
End MockSign.

Example utf8_literal : (String.length "✓", String.length "⚠️") = (3, 6)%nat.
Proof. reflexivity. Qed.

(** ** The further theorems at concrete inputs *)

Lemma seeds_never_collide_witness :
  encode (private_seed Dilithium 3 "a") = encode (private_seed Dilithium 3 "a") ∧
  Dilithium = Dilithium ∧ 3 = 3 ∧ "a"%string = "a"%string.
Proof.
  split; [reflexivity |].
  exact (proj1 (proj2 (@seeds_never_collide absent_oqs Dilithium Dilithium
                         3 3 "a" "a" [] [])) eq_refl).
Defined.

Lemma init_raises_iff_witness :
  LIBOQS_AVAILABLE (flaky_state 2) = true ∧
  (4 ∉ supported_levels Dilithium) ∧
  fst (init Dilithium 4 (flaky_state 2))
  = Raise (ValueError (invalid_level_message Dilithium 4)).
Proof.
  assert (Hl : 4 ∉ supported_levels Dilithium).
  { intros H. apply list_elem_of_In in H. simpl in H. lia. }
  split; [reflexivity |]. split; [exact Hl |].
  apply (proj2 (init_raises_iff Dilithium 4 (flaky_state 2) _)).
  split; [reflexivity |]. split; [| split; [exact Hl | reflexivity]].
  eexists _, _. reflexivity.
Defined.

Lemma flaky_exhausted_steps :
  rtc step (flaky_state 0) (@degraded flaky_oqs 0%nat (flaky_state 0)).
Proof.
  apply rtc_once.
  apply (step_sign Dilithium 2 flaky_dilithium3 [x01] [x02] (flaky_state 0)
           (mock_sign Dilithium [x01] [x02])).
  reflexivity.
Defined.

Lemma constructed_object_follows_flag_witness :
  init Dilithium 3 (flaky_state 2) = (Return flaky_dilithium3, flaky_state 0) ∧
  rtc step (flaky_state 0) (@degraded flaky_oqs 0%nat (flaky_state 0)) ∧
  mock_mode flaky_dilithium3 (@degraded flaky_oqs 0%nat (flaky_state 0))
  = negb (LIBOQS_AVAILABLE (@degraded flaky_oqs 0%nat (flaky_state 0))).
Proof.
  split; [reflexivity |]. split; [exact flaky_exhausted_steps |].
  apply (constructed_object_follows_flag Dilithium 3 (flaky_state 2)
           flaky_dilithium3 (flaky_state 0)
           (@degraded flaky_oqs 0%nat (flaky_state 0)));
    [reflexivity | exact flaky_exhausted_steps].
Defined.

Lemma init_resolves_first_enabled_witness :
  init Dilithium 3 (flaky_state 2) = (Return flaky_dilithium3, flaky_state 0) ∧
  LIBOQS_AVAILABLE (flaky_state 0) = true ∧
  3 ∈ supported_levels Dilithium.
Proof.
  split; [reflexivity |].
  destruct (init_resolves_first_enabled Dilithium 3 (flaky_state 2)
              flaky_dilithium3 (flaky_state 0)
              ("ML-DSA-65"%string : @Handle flaky_oqs) eq_refl eq_refl)
    as (Ha & Hl & _).
  split; [exact Ha | exact Hl].
Defined.

Lemma failed_resolution_degrades_all_witness :
  init SPHINCS 1 (flaky_state 2)
  = (Return (set_enabled_sigs (enabled_sigs flaky_dilithium3) (mock_instance 1)),
     set_LIBOQS_AVAILABLE false (flaky_state 1)) ∧
  sign Dilithium 1 flaky_dilithium3 [x01] [x02]
    (set_LIBOQS_AVAILABLE false (flaky_state 1))
  = Some (mock_sign Dilithium [x01] [x02],
          set_LIBOQS_AVAILABLE false (flaky_state 1)).
Proof.
  assert (Hnone : ∀ v : string,
            v ∈ ["SPHINCS+-SHA2-128f-simple"%string] →
            v ∉ enabled_sigs flaky_dilithium3).
  { intros v Hv Hin. apply list_elem_of_In in Hv, Hin. simpl in Hv, Hin.
    destruct Hv as [<- | []]. intuition discriminate. }
  destruct (failed_resolution_degrades_all SPHINCS 1 (flaky_state 2)
              (enabled_sigs flaky_dilithium3) 1%nat
              ["SPHINCS+-SHA2-128f-simple"%string]
              eq_refl eq_refl eq_refl Hnone) as [Hinit Hops].
  split; [exact Hinit |].
  exact (proj1 (Hops Dilithium flaky_dilithium3 [] [x01] [x02] [] 0%nat)).
Defined.

Lemma downgrade_iff_backend_raises_witness :
  LIBOQS_AVAILABLE (flaky_state 1) = true ∧
  sign Dilithium 2 flaky_dilithium3 [x01] [x02] (flaky_state 1)
  = Some (mock_sign Dilithium [x01] [x02], flaky_degraded) ∧
  (LIBOQS_AVAILABLE flaky_degraded = false ↔
   ∃ h e w, signer flaky_dilithium3 = Some h ∧
            try_sign flaky_dilithium3 [x01] [x02] (world (flaky_state 1))
            = (Raise e, w)).
Proof.
  split; [reflexivity |]. split; [reflexivity |].
  destruct (downgrade_iff_backend_raises Dilithium env_node1 flaky_dilithium3
              (flaky_state 1) [] [x01] [x02] [] 0 eq_refl)
    as (_ & Hsign & _).
  exact (Hsign _ _ eq_refl).
Defined.


Lemma mock_verify_needs_family_length_witness :
  reachable absent_state1 ∧
  mock_mode (mock_instance 3) absent_state1 = true ∧
  verify Dilithium 1 (mock_instance 3) absent_keys.1 [x68]
    (mock_sign SPHINCS absent_keys.2 [x68]) absent_state1
  = Some (false, absent_state1).
Proof.
  split; [exact absent_state1_reachable |]. split; [reflexivity |].
  apply (proj2 (mock_verify_needs_family_length Dilithium (mock_instance 3)
                  absent_state1 absent_keys.1 [x68] [] 0
                  absent_state1_reachable eq_refl)).
  discriminate.
Defined.

Lemma mock_generate_keypair_idempotent_witness :
  generate_keypair Dilithium 1 env_node1 (mock_instance 3) absent_state
  = Some (absent_keys, absent_state1) ∧
  generate_keypair Dilithium 1 env_node1 (mock_instance 3) absent_state1
  = Some (absent_keys, absent_state1).
Proof.
  split; [reflexivity |].
  apply (mock_generate_keypair_idempotent Dilithium env_node1 env_node1
           (mock_instance 3) (mock_instance 3) absent_state absent_keys
           absent_state1 0 0); reflexivity.
Defined.


Lemma registry_entries_genuine_witness :
  reachable absent_state1 ∧
  mock_keypairs Dilithium absent_state1 !! absent_keys.1 = Some absent_keys.2 ∧
  ∃ level node_id,
    absent_keys.2 = hashlib.sha256 (encode (private_seed Dilithium level node_id)) ∧
    absent_keys.1
    = hashlib.sha256 (encode (public_seed Dilithium level absent_keys.2)).
Proof.
  assert (Hl : mock_keypairs Dilithium absent_state1 !! absent_keys.1
               = Some absent_keys.2) by (vm_compute; reflexivity).
  split; [exact absent_state1_reachable |]. split; [exact Hl |].
  exact (registry_entries_genuine absent_state1 Dilithium absent_keys.1
           absent_keys.2 absent_state1_reachable Hl).
Defined.

Lemma node_id_source_witness :
  NODE_ID env_thread7 = None ∧ NODE_ID env_thread8 = None ∧
  get_ident env_thread7 ≠ get_ident env_thread8 ∧
  get_node_id env_thread7 ≠ get_node_id env_thread8.
Proof.
  assert (Hne : get_ident env_thread7 ≠ get_ident env_thread8)
    by (simpl; lia).
  split; [reflexivity |]. split; [reflexivity |]. split; [exact Hne |].
  exact (proj1 (proj2 (node_id_source env_thread7 env_thread8)
                  eq_refl eq_refl Hne)).
Defined.

Lemma name_identifies_witness :
  name Dilithium flaky_dilithium3 (flaky_state 1)
  ≠ name Dilithium flaky_dilithium3 flaky_degraded.
Proof.
  intros H.
  apply (proj1 (name_identifies flaky_oqs flaky_oqs Dilithium Dilithium
                  flaky_dilithium3 flaky_dilithium3
                  (flaky_state 1) flaky_degraded)) in H.
  destruct H as (_ & _ & H). discriminate H.
Defined.

Lemma peer_status_follows_name_witness :
  peer_crypto_settings local_messaging !! "peer-1"%string = Some remote_settings ∧
  signature_name local_messaging = name Dilithium flaky_dilithium3 flaky_degraded ∧
  remote_settings !! "signature"%string
  = Some (name Dilithium flaky_dilithium3 (flaky_state 1)) ∧
  connected_status (Some local_messaging) "peer-1"
  = (" [Connected, ⚠️ Settings differ]"%string, orange).
Proof.
  split; [reflexivity |]. split; [reflexivity |]. split; [reflexivity |].
  apply (proj1 (peer_status_follows_name flaky_oqs flaky_oqs
                  Dilithium Dilithium flaky_dilithium3 flaky_dilithium3
                  flaky_degraded (flaky_state 1) local_messaging "peer-1"
                  remote_settings eq_refl eq_refl)); [reflexivity |].
  intros (_ & _ & H). discriminate H.
Defined.

Lemma sphincs_mock_sign_concatenation_witness :
  mock_mode (mock_instance 3) absent_state = true ∧
  sign SPHINCS 1 (mock_instance 3) ([x01] ++ [x02]) [x03] absent_state
  = sign SPHINCS 1 (mock_instance 3) [x01] ([x02] ++ [x03]) absent_state.
Proof.
  split; [reflexivity |].
  apply (sphincs_mock_sign_concatenation (mock_instance 3) absent_state
           [x01] [x02] [x03] 0). reflexivity.
Defined.

Lemma dilithium_mock_sign_zero_padding_witness :
  mock_mode (mock_instance 3) absent_state = true ∧
  (length [x01; x02] < 64)%nat ∧
  sign Dilithium 1 (mock_instance 3) ([x01; x02] ++ [x00]) [x03] absent_state
  = sign Dilithium 1 (mock_instance 3) [x01; x02] [x03] absent_state.
Proof.
  split; [reflexivity |]. split; [simpl; lia |].
  apply (dilithium_mock_sign_zero_padding (mock_instance 3) absent_state
           [x01; x02] [x03] 0); [reflexivity | simpl; lia].
Defined.
